(** * Line integral convolution: the advection kernel of [lic.py]

    A shallow embedding of [taper_pixel_contribution], [advect_streamline],
    [_compute_lic] and [compute_lic] from
    [src/line_integral_convolutions/lic.py], with the Python [float]s read in
    two ways.

    Exact arithmetic.  The first part reads a [float] as the real number it
    denotes ([R]); [np.inf] is an explicit extra value ([PosInf]), and an
    operation that would leave the reals in IEEE arithmetic (a product with
    [np.inf]) is a [NonFinite] fault.  It carries the properties of the
    control flow, of the indices and of the driver.

    Binary64 arithmetic.  The module [F64] reads a [float] as the IEEE 754
    binary64 number it is, with the rounding, the overflow to [inf] and the
    [nan] of the program.  It carries what depends on the arithmetic: the
    cell-crossing step, velocities too small for a finite crossing time, the
    value of a pixel, zero velocity components, and the indices sampled under
    open boundaries.

    Python [int]s are [Z].

    Arrays.  A NumPy array is a nested list; indexing follows NumPy: an index
    [i] on an axis of length [n] is valid when [-n <= i < n], negative indices
    count from the end, anything else is an [IndexError].  (Compiled with
    numba the access is unchecked; the fault stands for any access outside
    the array.)

    Order of the pixel tasks.  [_compute_lic] runs the rows with [prange];
    [compute_lic] allocates [sfield_out] afresh with [np.zeros], so it never
    aliases [sfield_in].  A parallel run is read as the pixel tasks executed
    in some order ([run_schedule]). *)

From Stdlib Require Import Reals Lra Lia ZArith Permutation.
From Stdlib Require PrimFloat SpecFloat FloatOps FloatAxioms Uint63.
From stdpp Require Import base option list.

Open Scope R_scope.

(** ** Faults and the result monad *)

Inductive fault : Type :=
  | IndexError
  | ZeroDivisionError
  | NonFinite.

Inductive res (A : Type) : Type :=
  | Ok (a : A)
  | Err (f : fault).
Arguments Ok {A} a.
Arguments Err {A} f.

Definition res_bind {A B : Type} (m : res A) (k : A -> res B) : res B :=
  match m with
  | Ok a => k a
  | Err f => Err f
  end.

Notation "'do' x <~ m ;; k" := (res_bind m (fun x => k))
  (at level 10, x pattern, m at level 99, k at level 200).

(** ** Decidable comparisons on the reals *)

#[global] Instance Rlt_decision (x y : R) : Decision (x < y) := Rlt_dec x y.
#[global] Instance Rgt_decision (x y : R) : Decision (x > y) := Rgt_dec x y.
#[global] Instance Rle_decision (x y : R) : Decision (x <= y) := Rle_dec x y.
#[global] Instance Req_decision : EqDecision R := Req_dec_T.

(** ** Extended reals: the value [np.inf] *)

Inductive xreal : Type :=
  | Finite (t : R)
  | PosInf.

(** Python's [min(a, b)]: [b] when [b < a], else [a]. *)
Definition xmin (a b : xreal) : xreal :=
  match a, b with
  | Finite x, Finite y => if decide (y < x) then Finite y else Finite x
  | Finite x, PosInf => Finite x
  | PosInf, Finite y => Finite y
  | PosInf, PosInf => PosInf
  end.

(** [v * t] for a real [v]: with [t = np.inf] the IEEE product is an infinity
    or a NaN, which is no real number. *)
Definition xscale (v : R) (t : xreal) : res R :=
  match t with
  | Finite t => Ok (v * t)
  | PosInf => Err NonFinite
  end.

(** Python's [x % n] for a float [x] and an int [n]: the result has the sign
    of [n]; [n = 0] raises. *)
Definition pymod (x : R) (n : Z) : res R :=
  if decide (n = 0%Z) then Err ZeroDivisionError
  else Ok (x - IZR n * IZR (Zfloor (x / IZR n))).

(** ** NumPy arrays *)

Abbreviation grid := (list (list R)).
Abbreviation vgrid := (list (list (list R))).

(** Index normalisation on an axis of length [n]. *)
Definition resolve (n : nat) (i : Z) : res nat :=
  if decide (0 <= i < Z.of_nat n)%Z then Ok (Z.to_nat i)
  else if decide (- Z.of_nat n <= i < 0)%Z then Ok (Z.to_nat (i + Z.of_nat n))
  else Err IndexError.

Definition getitem {A : Type} (l : list A) (i : Z) : res A :=
  do k <~ resolve (length l) i ;;
  match l !! k with
  | Some x => Ok x
  | None => Err IndexError
  end.

(** [g[r, c]] *)
Definition getitem2 (g : grid) (r c : Z) : res R :=
  do row <~ getitem g r ;; getitem row c.

(** [v[k, r, c]] *)
Definition getitem3 (v : vgrid) (k r c : Z) : res R :=
  do comp <~ getitem v k ;; getitem2 comp r c.

(** [g[r, c] = x] *)
Definition setitem2 (g : grid) (r c : Z) (x : R) : res grid :=
  do i <~ resolve (length g) r ;;
  do row <~ getitem g r ;;
  do j <~ resolve (length row) c ;;
  Ok (<[i := <[j := x]> row]> g).

(** [v.shape[1]] and [v.shape[2]] of a three-dimensional array. *)
Definition shape1 (v : vgrid) : Z :=
  Z.of_nat (length (default [] (v !! 0%nat))).
Definition shape2 (v : vgrid) : Z :=
  Z.of_nat (length (default [] (default [] (v !! 0%nat) !! 0%nat))).

(** A nested list is an array of shape [(nr, nc)], resp. [(2, nr, nc)]. *)
Definition gshape (g : grid) (nr nc : Z) : Prop :=
  Z.of_nat (length g) = nr /\ Forall (fun row => Z.of_nat (length row) = nc) g.
Definition vshape (v : vgrid) (nr nc : Z) : Prop :=
  length v = 2%nat /\ Forall (fun comp => gshape comp nr nc) v.

(** [np.zeros((nr, nc))] *)
Definition np_zeros (nr nc : Z) : grid :=
  replicate (Z.to_nat nr) (replicate (Z.to_nat nc) 0).

(** ** [taper_pixel_contribution] *)

Definition taper_pixel_contribution (streamlength step_index : Z) : R :=
  0.5 * (1 + cos (PI * IZR step_index / IZR streamlength)).

(** The formula of [taper_pixel_contribution] read at a real step. *)
Definition taper_curve (streamlength : Z) (x : R) : R :=
  0.5 * (1 + cos (PI * x / IZR streamlength)).

(** ** [advect_streamline] *)

Record state : Type := mkState {
  row_float : R;
  col_float : R;
  weighted_sum : R;
  total_weight : R
}.

(** What one pass through the loop body does to the loop. *)
Inductive ctl : Type :=
  | Next (s : state)
  | Break.

(** Lines 47-52: time for the row coordinate to leave the current cell. *)
Definition delta_time_row (row_float vel_row : R) : xreal :=
  if decide (vel_row > 0) then
    Finite ((IZR (Zfloor row_float) + 1 - row_float) / vel_row)
  else if decide (vel_row < 0) then
    Finite ((IZR (Zceil row_float) - 1 - row_float) / vel_row)
  else PosInf.

(** Lines 53-58: the same for the column coordinate. *)
Definition delta_time_col (col_float vel_col : R) : xreal :=
  if decide (vel_col > 0) then
    Finite ((IZR (Zfloor col_float) + 1 - col_float) / vel_col)
  else if decide (vel_col < 0) then
    Finite ((IZR (Zceil col_float) - 1 - col_float) / vel_col)
  else PosInf.

(** Lines 46-63: the new [(row_float, col_float)]. *)
Definition advance (row_float col_float vel_row vel_col : R) : res (R * R) :=
  let time_step :=
    xmin (delta_time_col col_float vel_col)
         (delta_time_row row_float vel_row) in
  do dcol <~ xscale vel_col time_step ;;
  do drow <~ xscale vel_row time_step ;;
  Ok (row_float + drow, col_float + dcol).

(** Lines 71-74: the contribution of the cell sampled in this step. *)
Definition accumulate (sfield_in : grid) (streamlength step : Z)
    (row_int col_int : Z) (row_float' col_float' : R) (s : state) : res ctl :=
  let contribution_weight := taper_pixel_contribution streamlength step in
  do sample <~ getitem2 sfield_in row_int col_int ;;
  Ok (Next (mkState row_float' col_float'
              (weighted_sum s + contribution_weight * sample)
              (total_weight s + contribution_weight))).

(** Lines 64-74: boundary handling, then the contribution. *)
Definition finish_step (vfield : vgrid) (sfield_in : grid) (streamlength : Z)
    (bool_periodic_BCs : bool) (step : Z) (row_int col_int : Z)
    (row_float' col_float' : R) (s : state) : res ctl :=
  let num_rows := shape1 vfield in
  let num_cols := shape2 vfield in
  if bool_periodic_BCs then
    do row_wrapped <~ pymod (row_float' + IZR num_rows) num_rows ;;
    do col_wrapped <~ pymod (col_float' + IZR num_cols) num_cols ;;
    accumulate sfield_in streamlength step row_int col_int
      row_wrapped col_wrapped s
  else if bool_decide ((0 <= row_float' /\ row_float' < IZR num_rows)
                       /\ (0 <= col_float' /\ col_float' < IZR num_cols)) then
    accumulate sfield_in streamlength step row_int col_int
      row_float' col_float' s
  else Ok Break.

(** Lines 39-74: the body of [for step in range(streamlength)]. *)
Definition loop_body (vfield : vgrid) (sfield_in : grid) (dir_sgn : Z)
    (streamlength : Z) (bool_periodic_BCs : bool)
    (step : Z) (s : state) : res ctl :=
  let row_int := Zfloor (row_float s) in
  let col_int := Zfloor (col_float s) in
  do v0 <~ getitem3 vfield 0 row_int col_int ;;
  do v1 <~ getitem3 vfield 1 row_int col_int ;;
  let vel_col := IZR dir_sgn * v0 in
  let vel_row := IZR dir_sgn * v1 in
  if bool_decide (Rabs vel_row = 0 /\ Rabs vel_col = 0) then Ok Break
  else
    do (row_float', col_float') <~
      advance (row_float s) (col_float s) vel_row vel_col ;;
    finish_step vfield sfield_in streamlength bool_periodic_BCs step
      row_int col_int row_float' col_float' s.

(** A [for] loop over [steps] with [break]. *)
Fixpoint for_loop (body : Z -> state -> res ctl) (steps : list Z) (s : state)
    : res state :=
  match steps with
  | [] => Ok s
  | step :: rest =>
      match body step s with
      | Err f => Err f
      | Ok Break => Ok s
      | Ok (Next s') => for_loop body rest s'
      end
  end.

(** The iterations the loop enters: the step index with the state at the
    head of the body, in order. *)
Fixpoint entered (body : Z -> state -> res ctl) (steps : list Z) (s : state)
    : list (Z * state) :=
  match steps with
  | [] => []
  | step :: rest =>
      (step, s) ::
      match body step s with
      | Ok (Next s') => entered body rest s'
      | _ => []
      end
  end.

(** [range(n)] *)
Definition range (n : Z) : list Z := seqZ 0 n.

Definition init_state (start_row start_col : Z) : state :=
  mkState (IZR start_row) (IZR start_col) 0 0.

Definition advect_streamline (vfield : vgrid) (sfield_in : grid)
    (start_row start_col : Z) (dir_sgn : Z) (streamlength : Z)
    (bool_periodic_BCs : bool) : res (R * R) :=
  do s <~ for_loop
         (loop_body vfield sfield_in dir_sgn streamlength bool_periodic_BCs)
         (range streamlength) (init_state start_row start_col) ;;
  Ok (weighted_sum s, total_weight s).

(** The iterations one call of [advect_streamline] enters. *)
Definition advect_entered (vfield : vgrid) (sfield_in : grid)
    (start_row start_col : Z) (dir_sgn : Z) (streamlength : Z)
    (bool_periodic_BCs : bool) : list (Z * state) :=
  entered (loop_body vfield sfield_in dir_sgn streamlength bool_periodic_BCs)
    (range streamlength) (init_state start_row start_col).

(** ** [_compute_lic] *)

(** Lines 90-113: the work for one pixel, writing [sfield_out[row, col]]. *)
Definition pixel_task (vfield : vgrid) (sfield_in : grid) (streamlength : Z)
    (bool_periodic_BCs : bool) (row col : Z) (sfield_out : grid) : res grid :=
  do (forward_sum, forward_total) <~
    advect_streamline vfield sfield_in row col 1 streamlength
      bool_periodic_BCs ;;
  do (backward_sum, backward_total) <~
    advect_streamline vfield sfield_in row col (-1) streamlength
      bool_periodic_BCs ;;
  let total_sum := forward_sum + backward_sum in
  let total_weight := forward_total + backward_total in
  if decide (total_weight > 0) then
    setitem2 sfield_out row col (total_sum / total_weight)
  else
    setitem2 sfield_out row col 0.

(** Lines 90-113 without the write: the value stored for one pixel. *)
Definition pixel_value (vfield : vgrid) (sfield_in : grid) (streamlength : Z)
    (bool_periodic_BCs : bool) (row col : Z) : res R :=
  do (forward_sum, forward_total) <~
    advect_streamline vfield sfield_in row col 1 streamlength
      bool_periodic_BCs ;;
  do (backward_sum, backward_total) <~
    advect_streamline vfield sfield_in row col (-1) streamlength
      bool_periodic_BCs ;;
  let total_sum := forward_sum + backward_sum in
  let total_weight := forward_total + backward_total in
  Ok (if decide (total_weight > 0) then total_sum / total_weight else 0).

(** Running a list of tasks one after the other on the output array. *)
Fixpoint run_tasks {T : Type} (task : T -> grid -> res grid) (ts : list T)
    (out : grid) : res grid :=
  match ts with
  | [] => Ok out
  | t :: rest => do out' <~ task t out ;; run_tasks task rest out'
  end.

(** The nested loops of lines 88-89, rows outermost.  [prange] is read here
    in its sequential order; [run_schedule] below takes any order. *)
Definition _compute_lic (vfield : vgrid) (sfield_in sfield_out : grid)
    (streamlength : Z) (num_rows num_cols : Z) (bool_periodic_BCs : bool)
    : res grid :=
  run_tasks
    (fun row out =>
       run_tasks
         (fun col out =>
            pixel_task vfield sfield_in streamlength bool_periodic_BCs
              row col out)
         (range num_cols) out)
    (range num_rows) sfield_out.

(** The pixel tasks executed in an arbitrary order. *)
Definition run_schedule (vfield : vgrid) (sfield_in sfield_out : grid)
    (streamlength : Z) (bool_periodic_BCs : bool)
    (schedule : list (Z * Z)) : res grid :=
  run_tasks
    (fun '(row, col) out =>
       pixel_task vfield sfield_in streamlength bool_periodic_BCs
         row col out)
    schedule sfield_out.

(** The pixels of an [num_rows] by [num_cols] image, row by row. *)
Definition pixels (num_rows num_cols : Z) : list (Z * Z) :=
  row ← range num_rows; (fun col => (row, col)) <$> range num_cols.

(** * Notions used in the statements *)

(** ** Positions and cells *)

(** The streamline position lies in the domain [[0,nr) x [0,nc)]. *)
Definition in_domain (nr nc : Z) (row col : R) : Prop :=
  (0 <= row /\ row < IZR nr) /\ (0 <= col /\ col < IZR nc).

(** The cell a state samples: lines 39-40. *)
Definition cell_of (s : state) : Z * Z :=
  (Zfloor (row_float s), Zfloor (col_float s)).

Definition cell_in_bounds (nr nc : Z) (rc : Z * Z) : Prop :=
  (0 <= rc.1 < nr)%Z /\ (0 <= rc.2 < nc)%Z.

(** The velocity sampled at the cell of [s] is zero in both components. *)
Definition stalled_at (vfield : vgrid) (dir_sgn : Z) (s : state) : Prop :=
  exists v0 v1,
    getitem3 vfield 0 (cell_of s).1 (cell_of s).2 = Ok v0
    /\ getitem3 vfield 1 (cell_of s).1 (cell_of s).2 = Ok v1
    /\ IZR dir_sgn * v1 = 0 /\ IZR dir_sgn * v0 = 0.

Definition state_in_domain (nr nc : Z) (s : state) : Prop :=
  in_domain nr nc (row_float s) (col_float s).

(** ** Loop invariants *)

(** The body keeps the invariant and raises no fault. *)
Definition preserves (body : Z -> state -> res ctl) (Inv : state -> Prop)
    (Idx : Z -> Prop) : Prop :=
  forall step s, Idx step -> Inv s ->
    match body step s with
    | Ok (Next s') => Inv s'
    | Ok Break => True
    | Err _ => False
    end.

(** The four ways through the loop body, with the values it reads. *)
Inductive body_case (vfield : vgrid) (sfield_in : grid)
    (dir_sgn streamlength : Z) (periodic : bool) (nr nc : Z)
    (step : Z) (s : state) : res ctl -> Prop :=
  | case_stalled (v0 v1 : R) :
      getitem3 vfield 0 (cell_of s).1 (cell_of s).2 = Ok v0 ->
      getitem3 vfield 1 (cell_of s).1 (cell_of s).2 = Ok v1 ->
      IZR dir_sgn * v1 = 0 -> IZR dir_sgn * v0 = 0 ->
      body_case vfield sfield_in dir_sgn streamlength periodic nr nc step s
        (Ok Break)
  | case_wrapped (v0 v1 sample t row' col' : R) :
      periodic = true ->
      getitem3 vfield 0 (cell_of s).1 (cell_of s).2 = Ok v0 ->
      getitem3 vfield 1 (cell_of s).1 (cell_of s).2 = Ok v1 ->
      getitem2 sfield_in (cell_of s).1 (cell_of s).2 = Ok sample ->
      ~ (IZR dir_sgn * v1 = 0 /\ IZR dir_sgn * v0 = 0) ->
      xmin (delta_time_col (col_float s) (IZR dir_sgn * v0))
           (delta_time_row (row_float s) (IZR dir_sgn * v1)) = Finite t ->
      0 < t ->
      pymod (row_float s + IZR dir_sgn * v1 * t + IZR nr) nr = Ok row' ->
      pymod (col_float s + IZR dir_sgn * v0 * t + IZR nc) nc = Ok col' ->
      in_domain nr nc row' col' ->
      body_case vfield sfield_in dir_sgn streamlength periodic nr nc step s
        (Ok (Next (mkState row' col'
           (weighted_sum s
            + taper_pixel_contribution streamlength step * sample)
           (total_weight s + taper_pixel_contribution streamlength step))))
  | case_inside (v0 v1 sample t : R) :
      periodic = false ->
      getitem3 vfield 0 (cell_of s).1 (cell_of s).2 = Ok v0 ->
      getitem3 vfield 1 (cell_of s).1 (cell_of s).2 = Ok v1 ->
      getitem2 sfield_in (cell_of s).1 (cell_of s).2 = Ok sample ->
      ~ (IZR dir_sgn * v1 = 0 /\ IZR dir_sgn * v0 = 0) ->
      xmin (delta_time_col (col_float s) (IZR dir_sgn * v0))
           (delta_time_row (row_float s) (IZR dir_sgn * v1)) = Finite t ->
      0 < t ->
      in_domain nr nc (row_float s + IZR dir_sgn * v1 * t)
                      (col_float s + IZR dir_sgn * v0 * t) ->
      body_case vfield sfield_in dir_sgn streamlength periodic nr nc step s
        (Ok (Next (mkState (row_float s + IZR dir_sgn * v1 * t)
                           (col_float s + IZR dir_sgn * v0 * t)
           (weighted_sum s
            + taper_pixel_contribution streamlength step * sample)
           (total_weight s + taper_pixel_contribution streamlength step))))
  | case_exit (v0 v1 t : R) :
      periodic = false ->
      getitem3 vfield 0 (cell_of s).1 (cell_of s).2 = Ok v0 ->
      getitem3 vfield 1 (cell_of s).1 (cell_of s).2 = Ok v1 ->
      ~ (IZR dir_sgn * v1 = 0 /\ IZR dir_sgn * v0 = 0) ->
      xmin (delta_time_col (col_float s) (IZR dir_sgn * v0))
           (delta_time_row (row_float s) (IZR dir_sgn * v1)) = Finite t ->
      0 < t ->
      ~ in_domain nr nc (row_float s + IZR dir_sgn * v1 * t)
                        (col_float s + IZR dir_sgn * v0 * t) ->
      body_case vfield sfield_in dir_sgn streamlength periodic nr nc step s
        (Ok Break).

(** ** Example inputs *)

(** A uniform rightward field on a 2 by 2 grid: component 0 is 1 everywhere,
    component 1 is 0 everywhere. *)
Definition vfield_right : vgrid := [ [[1; 1]; [1; 1]]; [[0; 0]; [0; 0]] ].

(** A scalar field that stores the column index. *)
Definition sfield_cols : grid := [ [0; 1]; [0; 1] ].

(** A field that is zero in both components. *)
Definition vfield_zero : vgrid := [ [[0; 0]; [0; 0]]; [[0; 0]; [0; 0]] ].

(** * The wrapper [compute_lic] *)

(** [g.shape] of a two-dimensional array.  (A nested list with no rows does
    not record its number of columns; it is read as 0.) *)
Definition grid_shape (g : grid) : Z * Z :=
  (Z.of_nat (length g), Z.of_nat (length (default [] (g !! 0%nat)))).

(** The two [assert]s of [compute_lic] that can fail ([vfield.ndim == 3]
    holds for every [vgrid]). *)
Inductive assertion : Type :=
  | BadComponents (num_vcomps : Z)
  | BadScalarShape (shape : Z * Z).

Inductive lic_result : Type :=
  | AssertionError (a : assertion)
  | Computed (r : res grid).

(** Lines 154-179.  [rand seed_sfield num_rows num_cols] stands for
    [np.random.rand(num_rows, num_cols)] after [np.random.seed(seed_sfield)]
    when a seed is given.  The decorator imported as [time_func] is taken to
    return the result of the call unchanged, as [timeFunc] of [utils.py]
    does; its timing and printing are not modelled. *)
Definition compute_lic (rand : option Z -> Z -> Z -> grid)
    (vfield : vgrid) (sfield_in : option grid) (streamlength : option Z)
    (seed_sfield : option Z) (bool_periodic_BCs : bool) : lic_result :=
  let num_vcomps := Z.of_nat (length vfield) in
  let num_rows := shape1 vfield in
  let num_cols := shape2 vfield in
  if decide (num_vcomps = 2%Z) then
    let sfield_out := np_zeros num_rows num_cols in
    let checked :=
      match sfield_in with
      | None => inl (rand seed_sfield num_rows num_cols)
      | Some g =>
          if decide (grid_shape g = (num_rows, num_cols)) then inl g
          else inr (grid_shape g)
      end in
    match checked with
    | inr shape => AssertionError (BadScalarShape shape)
    | inl sfield =>
        let streamlength' :=
          match streamlength with
          | None => (Z.min num_rows num_cols / 4)%Z
          | Some n => n
          end in
        Computed
          (_compute_lic vfield sfield sfield_out streamlength' num_rows
             num_cols bool_periodic_BCs)
    end
  else AssertionError (BadComponents num_vcomps).

(** ** Further notions used in the statements *)

(** A function applied to every entry of a vector field. *)
Definition map_field (f : R -> R) (vfield : vgrid) : vgrid :=
  (fun comp : grid => (fun row : list R => f <$> row) <$> comp) <$> vfield.

(** [-vfield] *)
Definition negate_field (vfield : vgrid) : vgrid := map_field Ropp vfield.


(** A random-field generator that returns arrays of the requested shape. *)
Definition rand_well_shaped (rand : option Z -> Z -> Z -> grid) : Prop :=
  forall seed nr nc, (0 <= nr)%Z -> (0 <= nc)%Z ->
    gshape (rand seed nr nc) nr nc.

(** A generator that ignores the seed and returns zeros, for examples. *)
Definition rand_zeros (seed : option Z) (nr nc : Z) : grid := np_zeros nr nc.

(** The streamlength [compute_lic] passes on. *)
Definition effective_streamlength (vfield : vgrid) (streamlength : option Z)
    : Z :=
  match streamlength with
  | None => (Z.min (shape1 vfield) (shape2 vfield) / 4)%Z
  | Some n => n
  end.

(** The scalar field [compute_lic] passes on. *)
Definition effective_sfield (rand : option Z -> Z -> Z -> grid)
    (vfield : vgrid) (sfield_in : option grid) (seed_sfield : option Z)
    : grid :=
  match sfield_in with
  | None => rand seed_sfield (shape1 vfield) (shape2 vfield)
  | Some g => g
  end.

(** A function applied to the value of a result. *)
Definition res_map {A B : Type} (f : A -> B) (m : res A) : res B :=
  match m with
  | Ok a => Ok (f a)
  | Err e => Err e
  end.

(** * Binary64 arithmetic

    The same three functions with Python [float]s as IEEE 754 binary64
    numbers (Rocq's primitive [float]), so that rounding, overflow to
    [inf] and [nan] are those of the program.  [np.cos] belongs to the
    platform's mathematical library and is a parameter [np_cos] of the
    model.  [int(np.floor(x))] has no value for an infinite or [nan] [x]
    (Python raises; compiled with numba the conversion is undefined): this
    is the fault [NonFinite]. *)

Module F64.
Import PrimFloat SpecFloat FloatOps.
#[local] Open Scope float_scope.

Abbreviation grid := (list (list float)).
Abbreviation vgrid := (list (list (list float))).

(** ** Integers and floats *)

(** [float(z)]: the binary64 number nearest to the integer [z].  (Beyond
    the binary64 range this is [inf]; a 64-bit integer is well inside.) *)
Definition of_int (z : Z) : float :=
  SF2Prim (binary_normalize prec emax z 0 false).

(** The largest integer not above [(-1)^s * m * 2^e]. *)
Definition floor_of_finite (s : bool) (m : positive) (e : Z) : Z :=
  let n := if s then Z.neg m else Z.pos m in
  if (0 <=? e)%Z then (n * 2 ^ e)%Z else (n / 2 ^ (- e))%Z.

(** [np.floor(x)] *)
Definition np_floor (x : float) : float :=
  match Prim2SF x with
  | S754_finite s m e =>
      if (0 <=? e)%Z then x else of_int (floor_of_finite s m e)
  | _ => x
  end.

(** [np.ceil(x)] *)
Definition np_ceil (x : float) : float := - np_floor (- x).

(** [int(np.floor(x))] *)
Definition int_floor (x : float) : res Z :=
  match Prim2SF x with
  | S754_zero _ => Ok 0%Z
  | S754_finite s m e => Ok (floor_of_finite s m e)
  | S754_infinity _ | S754_nan => Err NonFinite
  end.

(** C's [fmod(x, y)]: the exact remainder of the division truncated
    towards zero, with the sign of [x]. *)
Definition fmod (x y : float) : float :=
  match Prim2SF x, Prim2SF y with
  | S754_nan, _ | _, S754_nan | S754_infinity _, _ | _, S754_zero _ => nan
  | S754_zero _, _ | _, S754_infinity _ => x
  | S754_finite sx mx ex, S754_finite _ my ey =>
      let e := Z.min ex ey in
      let r := ((Z.pos mx * 2 ^ (ex - e)) mod (Z.pos my * 2 ^ (ey - e)))%Z in
      let m := Z.ldexp (of_int r) e in
      if sx then - m else m
  end.

(** Python's [x % n] for a float [x] and an int [n]: [fmod] moved to the
    sign of [n]; [n = 0] raises. *)
Definition pymod (x : float) (n : Z) : res float :=
  if decide (n = 0%Z) then Err ZeroDivisionError
  else
    let y := of_int n in
    let m := fmod x y in
    Ok (if m =? 0 then (if y <? 0 then neg_zero else zero)
        else if xorb (y <? 0) (m <? 0) then m + y else m).

(** Python's [min(a, b)]: [b] when [b < a], else [a]. *)
Definition py_min (a b : float) : float := if b <? a then b else a.

(** The value an element of a [float32] array holds after [x] is stored
    in it: [x] rounded to binary32. *)
Definition to_float32 (x : float) : float :=
  match Prim2SF x with
  | S754_finite s m e => SF2Prim (binary_round 24 128 s m e)
  | _ => x
  end.

(** ** Arrays *)

Definition getitem2 (g : grid) (r c : Z) : res float :=
  do row <~ getitem g r ;; getitem row c.

Definition getitem3 (v : vgrid) (k r c : Z) : res float :=
  do comp <~ getitem v k ;; getitem2 comp r c.

Definition setitem2 (g : grid) (r c : Z) (x : float) : res grid :=
  do i <~ resolve (length g) r ;;
  do row <~ getitem g r ;;
  do j <~ resolve (length row) c ;;
  Ok (<[i := <[j := x]> row]> g).

Definition shape1 (v : vgrid) : Z :=
  Z.of_nat (length (default [] (v !! 0%nat))).
Definition shape2 (v : vgrid) : Z :=
  Z.of_nat (length (default [] (default [] (v !! 0%nat) !! 0%nat))).

(** ** [taper_pixel_contribution] *)

(** [np.pi] *)
Definition np_pi : float := 0x1.921fb54442d18p+1.

Definition taper_pixel_contribution (np_cos : float -> float)
    (streamlength step_index : Z) : float :=
  0.5 * (1 + np_cos (np_pi * of_int step_index / of_int streamlength)).

(** ** [advect_streamline] *)

Record state : Type := mkState {
  row_float : float;
  col_float : float;
  weighted_sum : float;
  total_weight : float
}.

Inductive ctl : Type :=
  | Next (s : state)
  | Break.

(** Lines 47-52. *)
Definition delta_time_row (row_float vel_row : float) : float :=
  if 0 <? vel_row then (np_floor row_float + 1 - row_float) / vel_row
  else if vel_row <? 0 then (np_ceil row_float - 1 - row_float) / vel_row
  else infinity.

(** Lines 53-58. *)
Definition delta_time_col (col_float vel_col : float) : float :=
  if 0 <? vel_col then (np_floor col_float + 1 - col_float) / vel_col
  else if vel_col <? 0 then (np_ceil col_float - 1 - col_float) / vel_col
  else infinity.

(** Lines 46-63: the new [(row_float, col_float)]. *)
Definition advance (row_float col_float vel_row vel_col : float)
    : float * float :=
  let time_step :=
    py_min (delta_time_col col_float vel_col)
           (delta_time_row row_float vel_row) in
  (row_float + vel_row * time_step, col_float + vel_col * time_step).

(** Lines 71-74. *)
Definition accumulate (np_cos : float -> float) (sfield_in : grid)
    (streamlength step : Z) (row_int col_int : Z)
    (row_float' col_float' : float) (s : state) : res ctl :=
  let contribution_weight :=
    taper_pixel_contribution np_cos streamlength step in
  do sample <~ getitem2 sfield_in row_int col_int ;;
  Ok (Next (mkState row_float' col_float'
              (weighted_sum s + contribution_weight * sample)
              (total_weight s + contribution_weight))).

(** The test of line 68: [0 <= row_float < num_rows] and
    [0 <= col_float < num_cols]. *)
Definition inside (num_rows num_cols : Z) (row_float col_float : float)
    : bool :=
  (0 <=? row_float) && (row_float <? of_int num_rows)
  && ((0 <=? col_float) && (col_float <? of_int num_cols)).

(** Lines 64-74. *)
Definition finish_step (np_cos : float -> float) (vfield : vgrid)
    (sfield_in : grid) (streamlength : Z) (bool_periodic_BCs : bool)
    (step : Z) (row_int col_int : Z) (row_float' col_float' : float)
    (s : state) : res ctl :=
  let num_rows := shape1 vfield in
  let num_cols := shape2 vfield in
  if bool_periodic_BCs then
    do row_wrapped <~ pymod (row_float' + of_int num_rows) num_rows ;;
    do col_wrapped <~ pymod (col_float' + of_int num_cols) num_cols ;;
    accumulate np_cos sfield_in streamlength step row_int col_int
      row_wrapped col_wrapped s
  else if inside num_rows num_cols row_float' col_float' then
    accumulate np_cos sfield_in streamlength step row_int col_int
      row_float' col_float' s
  else Ok Break.

(** The test of line 44. *)
Definition stalled (vel_row vel_col : float) : bool :=
  (abs vel_row =? 0) && (abs vel_col =? 0).

(** Lines 39-74: the body of [for step in range(streamlength)]. *)
Definition loop_body (np_cos : float -> float) (vfield : vgrid)
    (sfield_in : grid) (dir_sgn : Z) (streamlength : Z)
    (bool_periodic_BCs : bool) (step : Z) (s : state) : res ctl :=
  do row_int <~ int_floor (row_float s) ;;
  do col_int <~ int_floor (col_float s) ;;
  do v0 <~ getitem3 vfield 0 row_int col_int ;;
  do v1 <~ getitem3 vfield 1 row_int col_int ;;
  let vel_col := of_int dir_sgn * v0 in
  let vel_row := of_int dir_sgn * v1 in
  if stalled vel_row vel_col then Ok Break
  else
    let '(row_float', col_float') :=
      advance (row_float s) (col_float s) vel_row vel_col in
    finish_step np_cos vfield sfield_in streamlength bool_periodic_BCs step
      row_int col_int row_float' col_float' s.

Fixpoint for_loop (body : Z -> state -> res ctl) (steps : list Z) (s : state)
    : res state :=
  match steps with
  | [] => Ok s
  | step :: rest =>
      match body step s with
      | Err f => Err f
      | Ok Break => Ok s
      | Ok (Next s') => for_loop body rest s'
      end
  end.

(** The iterations the loop enters: the step index with the state at the
    head of the body, in order. *)
Fixpoint entered (body : Z -> state -> res ctl) (steps : list Z) (s : state)
    : list (Z * state) :=
  match steps with
  | [] => []
  | step :: rest =>
      (step, s) ::
      match body step s with
      | Ok (Next s') => entered body rest s'
      | _ => []
      end
  end.

Definition init_state (start_row start_col : Z) : state :=
  mkState (of_int start_row) (of_int start_col) 0 0.

Definition advect_streamline (np_cos : float -> float) (vfield : vgrid)
    (sfield_in : grid) (start_row start_col : Z) (dir_sgn : Z)
    (streamlength : Z) (bool_periodic_BCs : bool) : res (float * float) :=
  do s <~ for_loop
         (loop_body np_cos vfield sfield_in dir_sgn streamlength
            bool_periodic_BCs)
         (range streamlength) (init_state start_row start_col) ;;
  Ok (weighted_sum s, total_weight s).

(** The iterations one call of [advect_streamline] enters. *)
Definition advect_entered (np_cos : float -> float) (vfield : vgrid)
    (sfield_in : grid) (start_row start_col : Z) (dir_sgn : Z)
    (streamlength : Z) (bool_periodic_BCs : bool) : list (Z * state) :=
  entered
    (loop_body np_cos vfield sfield_in dir_sgn streamlength bool_periodic_BCs)
    (range streamlength) (init_state start_row start_col).

(** ** [_compute_lic] *)

(** Lines 108-113: the value assigned to [sfield_out[row, col]]. *)
Definition normalise (forward_sum forward_total backward_sum backward_total
    : float) : float :=
  let total_sum := forward_sum + backward_sum in
  let total_weight := forward_total + backward_total in
  if 0 <? total_weight then total_sum / total_weight else 0.

(** Lines 90-113 without the write. *)
Definition pixel_value (np_cos : float -> float) (vfield : vgrid)
    (sfield_in : grid) (streamlength : Z) (bool_periodic_BCs : bool)
    (row col : Z) : res float :=
  do (forward_sum, forward_total) <~
    advect_streamline np_cos vfield sfield_in row col 1 streamlength
      bool_periodic_BCs ;;
  do (backward_sum, backward_total) <~
    advect_streamline np_cos vfield sfield_in row col (-1) streamlength
      bool_periodic_BCs ;;
  Ok (normalise forward_sum forward_total backward_sum backward_total).

(** Lines 90-113.  [store] is the conversion to the element type of
    [sfield_out]; [compute_lic] allocates it with [dtype=np.float32], which
    is [to_float32]. *)
Definition pixel_task (np_cos : float -> float) (store : float -> float)
    (vfield : vgrid) (sfield_in : grid) (streamlength : Z)
    (bool_periodic_BCs : bool) (row col : Z) (sfield_out : grid)
    : res grid :=
  do value <~
    pixel_value np_cos vfield sfield_in streamlength bool_periodic_BCs
      row col ;;
  setitem2 sfield_out row col (store value).

(** ** Notions used in the statements *)


(** [x] is stored in some cell of [g]. *)
Definition cell_value (g : grid) (x : float) : Prop :=
  exists row, row ∈ g /\ x ∈ row.



(** The finite number [x] has the integer value [n]. *)
Definition represents (x : float) (n : Z) : Prop :=
  match Prim2SF x with
  | S754_zero _ => n = 0%Z
  | S754_finite s m e =>
      let k := if s then Z.neg m else Z.pos m in
      if (0 <=? e)%Z then (k * 2 ^ e)%Z = n else k = (n * 2 ^ (- e))%Z
  | _ => False
  end.

(** A nested list is an array of shape [(nr, nc)], resp. [(2, nr, nc)]. *)
Definition gshape (g : grid) (nr nc : Z) : Prop :=
  Z.of_nat (length g) = nr /\ Forall (fun row => Z.of_nat (length row) = nc) g.
Definition vshape (v : vgrid) (nr nc : Z) : Prop :=
  length v = 2%nat /\ Forall (fun comp => gshape comp nr nc) v.

(** The cell under the position of [s] is a cell of an [nr] by [nc] grid. *)
Definition cell_in_bounds (nr nc : Z) (s : state) : Prop :=
  exists row_int col_int,
    int_floor (row_float s) = Ok row_int
    /\ int_floor (col_float s) = Ok col_int
    /\ (0 <= row_int < nr)%Z /\ (0 <= col_int < nc)%Z.

(** ** Example inputs *)

(** A cosine known at [0.0] only, where [np.cos] returns [1.0]; the runs
    below evaluate the cosine nowhere else. *)
Definition cos_at_zero (x : float) : float := if x =? 0 then 1 else nan.

(** The cosine, correctly rounded, at the arguments [pi * step / L] of the
    stream lengths 2, 4 and 6. *)
Definition cos_table (x : float) : float :=
  if x =? 0 then 1
  else if x =? 0x1.0c152382d7365p-1 then 0x1.bb67ae8584cabp-1
  else if x =? 0x1.921fb54442d18p-1 then 0x1.6a09e667f3bcdp-1
  else if x =? 0x1.0c152382d7365p+0 then 0x1.0000000000001p-1
  else if x =? 0x1.921fb54442d18p+0 then 0x1.1a62633145c07p-54
  else if x =? 0x1.0c152382d7365p+1 then -0x1.ffffffffffffcp-2
  else if x =? 0x1.2d97c7f3321d2p+1 then -0x1.6a09e667f3bccp-1
  else if x =? 0x1.4f1a6c638d03fp+1 then -0x1.bb67ae8584cabp-1
  else nan.

(** Component 0 is 1 everywhere, component 1 is 0 everywhere. *)
Definition vfield_right : vgrid := [ [[1; 1]; [1; 1]]; [[0; 0]; [0; 0]] ].

(** Both components are 1.9 in row 0 and 0 in row 1. *)
Definition vfield_top : vgrid :=
  [ [[0x1.e666666666666p+0; 0x1.e666666666666p+0]; [0; 0]];
    [[0x1.e666666666666p+0; 0x1.e666666666666p+0]; [0; 0]] ].

(** 1 in every cell. *)
Definition sfield_ones : grid := [ [1; 1]; [1; 1] ].

(** Both components are 1.9 everywhere. *)
Definition vfield_diagonal : vgrid :=
  [ [[0x1.e666666666666p+0; 0x1.e666666666666p+0];
     [0x1.e666666666666p+0; 0x1.e666666666666p+0]];
    [[0x1.e666666666666p+0; 0x1.e666666666666p+0];
     [0x1.e666666666666p+0; 0x1.e666666666666p+0]] ].

(** The subnormal number nearest to [1e-320]. *)
Definition tiny : float := 0x0.00000000007e8p-1022.

(** Component 0 is [tiny] everywhere, component 1 is 0 everywhere. *)
Definition vfield_tiny : vgrid :=
  [ [[tiny; tiny]; [tiny; tiny]]; [[0; 0]; [0; 0]] ].

Definition sfield_cols : grid := [ [0; 1]; [0; 1] ].

(** [2^1023] in every cell. *)
Definition sfield_huge : grid :=
  [ [0x1p+1023; 0x1p+1023]; [0x1p+1023; 0x1p+1023] ].

(** The binary64 number nearest to [0.1] in every cell. *)
Definition sfield_tenth : grid :=
  [ [0x1.999999999999ap-4; 0x1.999999999999ap-4];
    [0x1.999999999999ap-4; 0x1.999999999999ap-4] ].

(** Component 0 is 1 in column 0 and 0 in column 1, component 1 is 0
    everywhere. *)
Definition vfield_stop : vgrid := [ [[1; 0]; [1; 0]]; [[0; 0]; [0; 0]] ].

End F64.

(** * Properties in exact arithmetic *)

(** ** The result monad *)

Lemma res_bind_Ok {A B : Type} (m : res A) (k : A -> res B) (b : B) :
  res_bind m k = Ok b -> exists a, m = Ok a /\ k a = Ok b.
Proof. destruct m as [a|f]; simpl; [eauto | discriminate]. Qed.

(** ** Array indexing *)

Lemma resolve_in_range (n : nat) (i : Z) :
  (0 <= i < Z.of_nat n)%Z -> resolve n i = Ok (Z.to_nat i).
Proof. intros Hi. unfold resolve. rewrite decide_True; auto. Qed.


Lemma getitem_in_range {A : Type} (l : list A) (i : Z) :
  (0 <= i < Z.of_nat (length l))%Z ->
  exists x, l !! Z.to_nat i = Some x /\ getitem l i = Ok x.
Proof.
  intros Hi. unfold getitem. rewrite resolve_in_range by exact Hi. simpl.
  destruct (lookup_lt_is_Some_2 l (Z.to_nat i)) as [x Hx]; [lia|].
  exists x. rewrite Hx. auto.
Qed.

Lemma getitem_elem {A : Type} (l : list A) (i : Z) (x : A) :
  getitem l i = Ok x -> x ∈ l.
Proof.
  unfold getitem. intros H. apply res_bind_Ok in H as (k & _ & H).
  destruct (l !! k) as [y|] eqn:Hy; [|discriminate].
  injection H as <-. eapply list_elem_of_lookup_2; eauto.
Qed.

Lemma gshape_row (g : grid) (nr nc : Z) (row : list R) :
  gshape g nr nc -> row ∈ g -> Z.of_nat (length row) = nc.
Proof.
  intros [_ Hrows] Hin. rewrite Forall_forall in Hrows. auto.
Qed.

Lemma getitem2_in_range (g : grid) (nr nc r c : Z) :
  gshape g nr nc -> (0 <= r < nr)%Z -> (0 <= c < nc)%Z ->
  exists x, getitem2 g r c = Ok x.
Proof.
  intros Hg Hr Hc. unfold getitem2.
  destruct (getitem_in_range g r) as (row & Hrow & ->); [destruct Hg; lia|].
  simpl. apply list_elem_of_lookup_2 in Hrow.
  pose proof (gshape_row _ _ _ _ Hg Hrow) as Hlen.
  destruct (getitem_in_range row c) as (x & _ & ->); [lia|]. eauto.
Qed.

Lemma getitem2_elem (g : grid) (r c : Z) (x : R) :
  getitem2 g r c = Ok x -> exists row, row ∈ g /\ x ∈ row.
Proof.
  unfold getitem2. intros H. apply res_bind_Ok in H as (row & Hrow & H).
  exists row. split; eapply getitem_elem; eauto.
Qed.

Lemma vshape_comp (v : vgrid) (nr nc k : Z) :
  vshape v nr nc -> (0 <= k < 2)%Z ->
  exists comp, getitem v k = Ok comp /\ gshape comp nr nc.
Proof.
  intros [Hlen Hall] Hk.
  destruct (getitem_in_range v k) as (comp & Hcomp & Hget); [lia|].
  exists comp. split; [exact Hget|].
  rewrite Forall_forall in Hall. apply Hall.
  eapply list_elem_of_lookup_2; eauto.
Qed.

Lemma getitem3_in_range (v : vgrid) (nr nc k r c : Z) :
  vshape v nr nc -> (0 <= k < 2)%Z -> (0 <= r < nr)%Z -> (0 <= c < nc)%Z ->
  exists x, getitem3 v k r c = Ok x.
Proof.
  intros Hv Hk Hr Hc. unfold getitem3.
  destruct (vshape_comp v nr nc k Hv Hk) as (comp & -> & Hcomp). simpl.
  eapply getitem2_in_range; eauto.
Qed.

Lemma vshape_shape1 (v : vgrid) (nr nc : Z) :
  vshape v nr nc -> shape1 v = nr.
Proof.
  intros [Hlen Hall]. unfold shape1.
  destruct v as [|comp v]; [discriminate|]. simpl.
  apply Forall_cons in Hall as [[Hnr _] _]. exact Hnr.
Qed.

Lemma vshape_shape2 (v : vgrid) (nr nc : Z) :
  vshape v nr nc -> (0 < nr)%Z -> shape2 v = nc.
Proof.
  intros [Hlen Hall] Hpos. unfold shape2.
  destruct v as [|comp v]; [discriminate|]. simpl.
  apply Forall_cons in Hall as [[Hnr Hrows] _].
  destruct comp as [|row comp]; [simpl in Hnr; lia|]. simpl.
  apply Forall_cons in Hrows as [Hrow _]. exact Hrow.
Qed.

(** ** Floors, ceilings and the float modulo *)

Lemma floor_in_range (x : R) (n : Z) :
  0 <= x < IZR n -> (0 <= Zfloor x < n)%Z.
Proof.
  intros [Hlo Hhi]. split.
  - apply Zfloor_lub. exact Hlo.
  - apply lt_IZR. pose proof (Zfloor_bound x). lra.
Qed.

Lemma ceil_nonneg (x : R) : 0 <= x -> 0 <= IZR (Zceil x).
Proof. intros Hx. pose proof (Zceil_bound x). lra. Qed.

Lemma floor_le_pred (x : R) (n : Z) : x < IZR n -> IZR (Zfloor x) + 1 <= IZR n.
Proof.
  intros Hx. rewrite <- plus_IZR. apply IZR_le.
  assert (Zfloor x < n)%Z; [|lia].
  apply lt_IZR. pose proof (Zfloor_bound x). lra.
Qed.

Lemma pymod_range (x : R) (n : Z) :
  (0 < n)%Z -> exists y, pymod x n = Ok y /\ 0 <= y < IZR n.
Proof.
  intros Hn. unfold pymod. rewrite decide_False by lia.
  eexists; split; [reflexivity|].
  assert (Hpos : 0 < IZR n) by (apply IZR_lt; exact Hn).
  pose proof (Zfloor_bound (x / IZR n)) as [Hlo Hhi].
  assert (Hx : x = IZR n * (x / IZR n)) by (field; lra).
  split; nra.
Qed.

(** ** One advection step *)

Lemma delta_time_col_row (pos vel : R) :
  delta_time_col pos vel = delta_time_row pos vel.
Proof. reflexivity. Qed.

(** A finite crossing time is positive, and moving for at most that long
    keeps the coordinate between the two neighbouring cell boundaries. *)
Lemma delta_time_row_finite (pos vel t : R) :
  delta_time_row pos vel = Finite t ->
  vel <> 0 /\ 0 < t /\
  forall ts, 0 <= ts <= t ->
    IZR (Zceil pos) - 1 <= pos + vel * ts <= IZR (Zfloor pos) + 1.
Proof.
  unfold delta_time_row.
  pose proof (Zfloor_bound pos) as [Hf1 Hf2].
  pose proof (Zceil_bound pos) as [Hc1 Hc2].
  destruct (decide (vel > 0)) as [Hpos|Hnpos];
    [|destruct (decide (vel < 0)) as [Hneg|Hnneg]]; intros [= <-].
  - assert (Hvt : vel * ((IZR (Zfloor pos) + 1 - pos) / vel)
                  = IZR (Zfloor pos) + 1 - pos) by (field; lra).
    split; [lra|]. split.
    + apply Rdiv_lt_0_compat; lra.
    + intros ts [Hts1 Hts2].
      assert (vel * ts <= vel * ((IZR (Zfloor pos) + 1 - pos) / vel))
        by (apply Rmult_le_compat_l; lra).
      assert (0 <= vel * ts) by (apply Rmult_le_pos; lra).
      lra.
  - assert (Hvt : vel * ((IZR (Zceil pos) - 1 - pos) / vel)
                  = IZR (Zceil pos) - 1 - pos) by (field; lra).
    assert (Ht : 0 < (IZR (Zceil pos) - 1 - pos) / vel).
    { replace ((IZR (Zceil pos) - 1 - pos) / vel)
        with ((pos + 1 - IZR (Zceil pos)) / (- vel)) by (field; lra).
      apply Rdiv_lt_0_compat; lra. }
    split; [lra|]. split; [exact Ht|].
    intros ts [Hts1 Hts2].
    assert (vel * ((IZR (Zceil pos) - 1 - pos) / vel) <= vel * ts) by nra.
    assert (vel * ts <= 0) by nra.
    lra.
Qed.

Lemma delta_time_row_inf (pos vel : R) :
  delta_time_row pos vel = PosInf <-> vel = 0.
Proof.
  unfold delta_time_row.
  destruct (decide (vel > 0)); [|destruct (decide (vel < 0))]; split;
    intros Hv; try discriminate; try lra; reflexivity.
Qed.

Lemma xmin_Finite_le (a b : xreal) (t : R) :
  xmin a b = Finite t ->
  (a = Finite t \/ b = Finite t) /\
  (forall x, a = Finite x -> t <= x) /\ (forall y, b = Finite y -> t <= y).
Proof.
  destruct a as [x|], b as [y|]; simpl; try case_decide; intros [= <-];
    (split; [auto|split; intros ? [= <-]; lra]).
Qed.

(** The advection step of a streamline that has not stalled. *)
Lemma advance_moving (row col vel_row vel_col : R) :
  ~ (vel_row = 0 /\ vel_col = 0) ->
  exists t,
    xmin (delta_time_col col vel_col) (delta_time_row row vel_row) = Finite t
    /\ 0 < t
    /\ advance row col vel_row vel_col
       = Ok (row + vel_row * t, col + vel_col * t)
    /\ IZR (Zceil row) - 1 <= row + vel_row * t <= IZR (Zfloor row) + 1
    /\ IZR (Zceil col) - 1 <= col + vel_col * t <= IZR (Zfloor col) + 1.
Proof.
  intros Hmove.
  assert (Hfin : exists t,
    xmin (delta_time_col col vel_col) (delta_time_row row vel_row) = Finite t).
  { destruct (delta_time_col col vel_col) as [tc|] eqn:Hc,
             (delta_time_row row vel_row) as [tr|] eqn:Hr; simpl;
      try case_decide; eauto.
    apply delta_time_row_inf in Hr. rewrite delta_time_col_row in Hc.
    apply delta_time_row_inf in Hc. tauto. }
  destruct Hfin as [t Ht]. exists t.
  pose proof (xmin_Finite_le _ _ _ Ht) as (Hsel & Hle_c & Hle_r).
  assert (Hpos : 0 < t).
  { destruct Hsel as [H|H]; [rewrite delta_time_col_row in H|];
      apply delta_time_row_finite in H; tauto. }
  assert (Haxis : forall pos vel d,
    delta_time_row pos vel = d -> (forall x, d = Finite x -> t <= x) ->
    IZR (Zceil pos) - 1 <= pos + vel * t <= IZR (Zfloor pos) + 1).
  { intros pos vel [x|] Hd Hle.
    - apply delta_time_row_finite in Hd as (_ & _ & Hd).
      apply Hd. split; [lra|]. apply Hle. reflexivity.
    - apply delta_time_row_inf in Hd. subst vel.
      pose proof (Zfloor_bound pos). pose proof (Zceil_bound pos). lra. }
  split; [exact Ht|]. split; [exact Hpos|]. split.
  - unfold advance. rewrite Ht. reflexivity.
  - split.
    + eapply Haxis; [reflexivity|exact Hle_r].
    + eapply Haxis; [apply eq_sym, delta_time_col_row|exact Hle_c].
Qed.

Lemma Rabs_zero_iff (x : R) : Rabs x = 0 <-> x = 0.
Proof.
  split; [|intros ->; apply Rabs_R0].
  intros H. destruct (Req_dec x 0) as [|Hx]; [assumption|].
  apply Rabs_no_R0 in Hx. contradiction.
Qed.

(** ** The loop body on a well-shaped input *)

Lemma in_domain_cell (nr nc : Z) (s : state) :
  in_domain nr nc (row_float s) (col_float s) ->
  cell_in_bounds nr nc (cell_of s).
Proof.
  intros [Hr Hc]. split; simpl; apply floor_in_range; tauto.
Qed.

Section LoopBody.

Variables (vfield : vgrid) (sfield_in : grid).
Variables (dir_sgn streamlength : Z) (periodic : bool).
Variables (nr nc : Z).
Hypothesis Hvfield : vshape vfield nr nc.
Hypothesis Hsfield : gshape sfield_in nr nc.

Let body := loop_body vfield sfield_in dir_sgn streamlength periodic.

Lemma loop_body_cases (step : Z) (s : state) :
  in_domain nr nc (row_float s) (col_float s) ->
  body_case vfield sfield_in dir_sgn streamlength periodic nr nc step s
    (body step s).
Proof.
  intros Hdom. pose proof (in_domain_cell _ _ _ Hdom) as [Hr Hc].
  destruct Hdom as [[Hr1 Hr2] [Hc1 Hc2]].
  assert (Hnr : (0 < nr)%Z) by (apply lt_IZR; lra).
  assert (Hnc : (0 < nc)%Z) by (apply lt_IZR; lra).
  destruct (getitem3_in_range vfield nr nc 0 _ _ Hvfield ltac:(lia) Hr Hc)
    as [v0 Hv0].
  destruct (getitem3_in_range vfield nr nc 1 _ _ Hvfield ltac:(lia) Hr Hc)
    as [v1 Hv1].
  destruct (getitem2_in_range sfield_in nr nc _ _ Hsfield Hr Hc)
    as [sample Hsample].
  unfold body, loop_body. simpl in Hv0, Hv1, Hsample.
  rewrite Hv0, Hv1. simpl.
  case_bool_decide as Hstall.
  { destruct Hstall as [H1 H0].
    apply (proj1 (Rabs_zero_iff _)) in H1.
    apply (proj1 (Rabs_zero_iff _)) in H0.
    eapply case_stalled; eauto. }
  assert (Hmove : ~ (IZR dir_sgn * v1 = 0 /\ IZR dir_sgn * v0 = 0)).
  { intros [H1 H0]. apply Hstall. rewrite H1, H0, Rabs_R0. auto. }
  destruct (advance_moving (row_float s) (col_float s) _ _ Hmove)
    as (t & Ht & Htpos & -> & Hrow & Hcol).
  simpl. unfold finish_step.
  rewrite (vshape_shape1 _ _ _ Hvfield), (vshape_shape2 _ _ _ Hvfield Hnr).
  destruct periodic eqn:Hper.
  - destruct (pymod_range (row_float s + IZR dir_sgn * v1 * t + IZR nr) nr Hnr)
      as (row' & Hrow' & Hrow'r).
    destruct (pymod_range (col_float s + IZR dir_sgn * v0 * t + IZR nc) nc Hnc)
      as (col' & Hcol' & Hcol'r).
    rewrite Hrow', Hcol'. simpl. unfold accumulate. rewrite Hsample. simpl.
    eapply case_wrapped; eauto. split; tauto.
  - case_bool_decide as Hin.
    + unfold accumulate. rewrite Hsample. simpl.
      eapply case_inside; eauto.
    + eapply case_exit; eauto.
Qed.

End LoopBody.

(** ** Loops with [break] *)

Section Loop.

Variable body : Z -> state -> res ctl.
Variable Inv : state -> Prop.
Variable Idx : Z -> Prop.

Hypothesis Hbody : preserves body Inv Idx.

Lemma for_loop_inv (steps : list Z) (s : state) :
  Forall Idx steps -> Inv s ->
  exists s', for_loop body steps s = Ok s' /\ Inv s'.
Proof.
  intros Hsteps. revert s.
  induction Hsteps as [|step rest Hstep _ IH]; intros s Hs; simpl.
  - eauto.
  - pose proof (Hbody step s Hstep Hs) as Hb.
    destruct (body step s) as [[s'|]|f]; [apply IH; exact Hb|eauto|tauto].
Qed.

Lemma entered_inv (steps : list Z) (s : state) :
  Forall Idx steps -> Inv s ->
  Forall (fun p => Idx p.1 /\ Inv p.2) (entered body steps s).
Proof.
  intros Hsteps. revert s.
  induction Hsteps as [|step rest Hstep _ IH]; intros s Hs; simpl.
  - constructor.
  - constructor; [auto|].
    pose proof (Hbody step s Hstep Hs) as Hb.
    destruct (body step s) as [[s'|]|f]; [apply IH; exact Hb|constructor..].
Qed.

End Loop.

(** An iteration that breaks ends the loop in the state it was entered
    with. *)
Lemma for_loop_break (body : Z -> state -> res ctl) (steps : list Z)
    (s : state) (step : Z) (s' : state) :
  (step, s') ∈ entered body steps s -> body step s' = Ok Break ->
  for_loop body steps s = Ok s'.
Proof.
  revert s. induction steps as [|st rest IH]; intros s Hin Hbrk; simpl in *.
  - apply elem_of_nil in Hin. contradiction.
  - apply elem_of_cons in Hin as [[= -> ->]|Hin].
    + rewrite Hbrk. reflexivity.
    + destruct (body st s) as [[s1|]|f];
        [auto|apply elem_of_nil in Hin; contradiction..].
Qed.

(** The step indices of the entered iterations are an initial part of the
    loop's range. *)
Lemma entered_steps (body : Z -> state -> res ctl) (steps : list Z)
    (s : state) :
  (entered body steps s).*1 `prefix_of` steps.
Proof.
  revert s. induction steps as [|st rest IH]; intros s; simpl.
  - reflexivity.
  - apply prefix_cons.
    destruct (body st s) as [[s1|]|f]; [apply IH|apply prefix_nil..].
Qed.

Lemma range_spec (n step : Z) : step ∈ range n <-> (0 <= step < n)%Z.
Proof. unfold range. rewrite elem_of_seqZ. lia. Qed.

Lemma range_nonpos (n : Z) : (n <= 0)%Z -> range n = [].
Proof.
  intros Hn. unfold range, seqZ.
  replace (Z.to_nat n) with 0%nat by lia. reflexivity.
Qed.

(** ** The position invariant of [advect_streamline] *)

Section Advect.

Variables (vfield : vgrid) (sfield_in : grid).
Variables (dir_sgn streamlength : Z) (periodic : bool).
Variables (nr nc : Z).
Hypothesis Hvfield : vshape vfield nr nc.
Hypothesis Hsfield : gshape sfield_in nr nc.

Let body := loop_body vfield sfield_in dir_sgn streamlength periodic.

Lemma body_keeps_domain :
  preserves body (state_in_domain nr nc) (fun _ => True).
Proof.
  intros step s _ Hs. unfold body.
  destruct (loop_body_cases vfield sfield_in dir_sgn streamlength periodic
              nr nc Hvfield Hsfield step s Hs);
    unfold state_in_domain; simpl; auto.
Qed.

Lemma init_state_in_domain (start_row start_col : Z) :
  (0 <= start_row < nr)%Z -> (0 <= start_col < nc)%Z ->
  state_in_domain nr nc (init_state start_row start_col).
Proof.
  intros [Hr1 Hr2] [Hc1 Hc2]. unfold state_in_domain, in_domain. simpl.
  repeat split; try (apply IZR_le; assumption); apply IZR_lt; assumption.
Qed.

Lemma advect_streamline_ok (start_row start_col : Z) :
  (0 <= start_row < nr)%Z -> (0 <= start_col < nc)%Z ->
  exists s,
    for_loop body (range streamlength) (init_state start_row start_col) = Ok s
    /\ state_in_domain nr nc s
    /\ advect_streamline vfield sfield_in start_row start_col dir_sgn
         streamlength periodic = Ok (weighted_sum s, total_weight s).
Proof.
  intros Hr Hc.
  destruct (for_loop_inv body _ _ body_keeps_domain (range streamlength)
              (init_state start_row start_col)) as (s & Hloop & Hs).
  - apply Forall_forall. auto.
  - apply init_state_in_domain; assumption.
  - exists s. split; [exact Hloop|]. split; [exact Hs|].
    unfold advect_streamline. fold body. rewrite Hloop. reflexivity.
Qed.

Lemma advect_entered_in_domain (start_row start_col : Z) (step : Z)
    (s : state) :
  (0 <= start_row < nr)%Z -> (0 <= start_col < nc)%Z ->
  (step, s) ∈ advect_entered vfield sfield_in start_row start_col dir_sgn
                streamlength periodic ->
  (0 <= step < streamlength)%Z /\ state_in_domain nr nc s.
Proof.
  intros Hr Hc Hin. unfold advect_entered in Hin. fold body in Hin. split.
  - apply range_spec.
    pose proof (entered_steps body (range streamlength)
                  (init_state start_row start_col)) as Hpre.
    eapply elem_of_prefix; [|exact Hpre].
    apply list_elem_of_fmap. exists (step, s). auto.
  - pose proof (entered_inv body _ _ body_keeps_domain (range streamlength)
                  (init_state start_row start_col)) as Hall.
    specialize (Hall ltac:(apply Forall_forall; auto)
                     (init_state_in_domain _ _ Hr Hc)).
    rewrite Forall_forall in Hall. apply (Hall (step, s) Hin).
Qed.

End Advect.

(** ** Shapes of the example inputs *)

Lemma vfield_right_shape : vshape vfield_right 2 2.
Proof. split; [reflexivity|]. repeat constructor. Qed.

Lemma sfield_cols_shape : gshape sfield_cols 2 2.
Proof. repeat constructor. Qed.

(** ** Open boundaries *)

Lemma advect_streamline_break (vfield : vgrid) (sfield_in : grid)
    (start_row start_col dir_sgn streamlength : Z) (periodic : bool)
    (step : Z) (s : state) :
  (step, s) ∈ advect_entered vfield sfield_in start_row start_col dir_sgn
                streamlength periodic ->
  loop_body vfield sfield_in dir_sgn streamlength periodic step s = Ok Break ->
  advect_streamline vfield sfield_in start_row start_col dir_sgn streamlength
    periodic = Ok (weighted_sum s, total_weight s).
Proof.
  intros Hin Hbrk. unfold advect_streamline.
  rewrite (for_loop_break _ _ _ _ _ Hin Hbrk). reflexivity.
Qed.

(** C5.  Under open boundaries, for a call seeded inside the grid: every
    iteration the loop enters samples a cell inside the grid.  An iteration
    whose velocity is not zero computes the advanced position; if that
    position is inside [[0,R) x [0,C)] the loop goes on from exactly that
    position (no wrapping) with the step's contribution added; if it is
    outside, the loop ends there and the call returns the sums as they were
    when the iteration was entered, without this step's weight or sample. *)
Theorem open_streamline_stops_at_exit
    (vfield : vgrid) (sfield_in : grid) (dir_sgn streamlength nr nc : Z)
    (start_row start_col : Z) :
  vshape vfield nr nc -> gshape sfield_in nr nc ->
  (0 <= start_row < nr)%Z -> (0 <= start_col < nc)%Z ->
  let body := loop_body vfield sfield_in dir_sgn streamlength false in
  let visited := advect_entered vfield sfield_in start_row start_col dir_sgn
                   streamlength false in
  forall step s, (step, s) ∈ visited ->
    cell_in_bounds nr nc (cell_of s)
    /\ ((stalled_at vfield dir_sgn s /\ body step s = Ok Break)
        \/ exists v0 v1 row' col',
             getitem3 vfield 0 (cell_of s).1 (cell_of s).2 = Ok v0
             /\ getitem3 vfield 1 (cell_of s).1 (cell_of s).2 = Ok v1
             /\ advance (row_float s) (col_float s)
                  (IZR dir_sgn * v1) (IZR dir_sgn * v0) = Ok (row', col')
             /\ ((in_domain nr nc row' col'
                  /\ exists sample,
                       getitem2 sfield_in (cell_of s).1 (cell_of s).2
                         = Ok sample
                       /\ body step s
                          = Ok (Next (mkState row' col'
                               (weighted_sum s
                                + taper_pixel_contribution streamlength step
                                  * sample)
                               (total_weight s
                                + taper_pixel_contribution streamlength
                                    step))))
                 \/ (~ in_domain nr nc row' col'
                     /\ body step s = Ok Break
                     /\ advect_streamline vfield sfield_in start_row start_col
                          dir_sgn streamlength false
                        = Ok (weighted_sum s, total_weight s)))).
Proof.
  intros Hv Hs Hr Hc body visited step s Hin.
  destruct (advect_entered_in_domain vfield sfield_in dir_sgn streamlength
              false nr nc Hv Hs start_row start_col step s Hr Hc Hin)
    as [_ Hdom].
  split; [apply in_domain_cell; exact Hdom|].
  pose proof (loop_body_cases vfield sfield_in dir_sgn streamlength false
                nr nc Hv Hs step s Hdom) as Hcase.
  fold body in Hcase.
  remember (body step s) as result eqn:Hresult.
  destruct Hcase as [v0 v1 Hv0 Hv1 H1 H0
                    |? ? ? ? ? ? Hper
                    |v0 v1 sample t _ Hv0 Hv1 Hsam Hmove Ht Htpos Hdom'
                    |v0 v1 t _ Hv0 Hv1 Hmove Ht Htpos Hout];
    try discriminate Hper.
  - left. split; [|reflexivity]. exists v0, v1. auto.
  - right. exists v0, v1. do 2 eexists.
    split; [exact Hv0|]. split; [exact Hv1|]. split.
    { unfold advance. rewrite Ht. reflexivity. }
    left. split; [exact Hdom'|]. exists sample. auto.
  - right. exists v0, v1. do 2 eexists.
    split; [exact Hv0|]. split; [exact Hv1|]. split.
    { unfold advance. rewrite Ht. reflexivity. }
    right. split; [exact Hout|]. split; [reflexivity|].
    eapply advect_streamline_break; [exact Hin|]. symmetry. exact Hresult.
Qed.

Lemma open_streamline_stops_at_exit_witness :
  vshape vfield_right 2 2 /\ gshape sfield_cols 2 2
  /\ (0 <= 1 < 2)%Z /\ (0 <= 0 < 2)%Z
  /\ (0%Z, init_state 1 0)
       ∈ advect_entered vfield_right sfield_cols 1 0 1 2 false
  /\ cell_in_bounds 2 2 (cell_of (init_state 1 0)).
Proof.
  assert (Hin : (0%Z, init_state 1 0)
                  ∈ advect_entered vfield_right sfield_cols 1 0 1 2 false).
  { unfold advect_entered, range. simpl. left. }
  split; [exact vfield_right_shape|]. split; [exact sfield_cols_shape|].
  split; [lia|]. split; [lia|]. split; [exact Hin|].
  apply (open_streamline_stops_at_exit vfield_right sfield_cols 1 2 2 2 1 0
           vfield_right_shape sfield_cols_shape ltac:(lia) ltac:(lia)
           0%Z (init_state 1 0) Hin).
Defined.

(** ** The seed *)

Lemma cell_of_init_state (start_row start_col : Z) :
  cell_of (init_state start_row start_col) = (start_row, start_col).
Proof. unfold cell_of. simpl. rewrite !ZfloorZ. reflexivity. Qed.

(** ** Stalled streamlines and zero velocity components *)

Lemma loop_body_stalled (vfield : vgrid) (sfield_in : grid)
    (dir_sgn streamlength : Z) (periodic : bool) (step : Z) (s : state) :
  stalled_at vfield dir_sgn s ->
  loop_body vfield sfield_in dir_sgn streamlength periodic step s = Ok Break.
Proof.
  intros (v0 & v1 & Hv0 & Hv1 & H1 & H0). unfold loop_body.
  simpl in Hv0, Hv1. rewrite Hv0, Hv1. simpl.
  rewrite H1, H0, Rabs_R0. rewrite bool_decide_eq_true_2; auto.
Qed.

(** ** The weighting function *)

Lemma taper_curve_at (L s : Z) :
  taper_pixel_contribution L s = taper_curve L (IZR s).
Proof. reflexivity. Qed.

Lemma angle_range (L : Z) (x : R) :
  (1 <= L)%Z -> 0 <= x <= IZR L -> 0 <= PI * x / IZR L <= PI.
Proof.
  intros HL [Hx1 Hx2]. assert (HLr : 0 < IZR L) by (apply IZR_lt; lia).
  pose proof PI_RGT_0 as Hpi.
  assert (Hq : PI * x / IZR L * IZR L = PI * x) by (field; lra).
  split.
  - assert (0 <= PI * x) by nra. 
    unfold Rdiv. apply Rmult_le_pos; [assumption|].
    left. apply Rinv_0_lt_compat. assumption.
  - assert (PI * x <= PI * IZR L) by nra.
    apply Rmult_le_reg_r with (IZR L); [assumption|]. rewrite Hq. assumption.
Qed.

Lemma angle_lt (L : Z) (x y : R) :
  (1 <= L)%Z -> x < y -> PI * x / IZR L < PI * y / IZR L.
Proof.
  intros HL Hxy. assert (HLr : 0 < IZR L) by (apply IZR_lt; lia).
  pose proof PI_RGT_0 as Hpi.
  unfold Rdiv. apply Rmult_lt_compat_r; [apply Rinv_0_lt_compat; assumption|].
  apply Rmult_lt_compat_l; assumption.
Qed.

Lemma taper_curve_decreasing (L : Z) (x y : R) :
  (1 <= L)%Z -> 0 <= x -> x < y -> y <= IZR L ->
  taper_curve L y < taper_curve L x.
Proof.
  intros HL Hx Hxy Hy. unfold taper_curve.
  pose proof (angle_range L x HL ltac:(lra)) as [? ?].
  pose proof (angle_range L y HL ltac:(lra)) as [? ?].
  pose proof (angle_lt L x y HL Hxy).
  pose proof (cos_decreasing_1 (PI * x / IZR L) (PI * y / IZR L)).
  lra.
Qed.

Lemma taper_curve_start (L : Z) : taper_curve L 0 = 1.
Proof.
  unfold taper_curve. replace (PI * 0 / IZR L) with 0 by (unfold Rdiv; ring).
  rewrite cos_0. lra.
Qed.

Lemma taper_curve_end (L : Z) : (1 <= L)%Z -> taper_curve L (IZR L) = 0.
Proof.
  intros HL. assert (HLr : 0 < IZR L) by (apply IZR_lt; lia).
  unfold taper_curve. replace (PI * IZR L / IZR L) with PI by (field; lra).
  rewrite cos_PI. lra.
Qed.

Lemma taper_curve_limit (L : Z) (eps : R) :
  (1 <= L)%Z -> 0 < eps ->
  exists delta, 0 < delta /\
    forall x, IZR L - delta < x < IZR L -> 0 < taper_curve L x < eps.
Proof.
  intros HL Heps. assert (HLr : 0 < IZR L) by (apply IZR_lt; lia).
  pose proof PI_RGT_0 as Hpi.
  destruct (continuity_cos PI eps Heps) as (alp & Halp & Hcont).
  exists (Rmin (alp * IZR L / PI) (IZR L)).
  assert (Hd : 0 < alp * IZR L / PI).
  { apply Rdiv_lt_0_compat; [apply Rmult_lt_0_compat|]; lra. }
  split; [apply Rmin_glb_lt; lra|].
  intros x [Hx1 Hx2].
  pose proof (Rmin_l (alp * IZR L / PI) (IZR L)).
  pose proof (Rmin_r (alp * IZR L / PI) (IZR L)).
  assert (Hx0 : 0 <= x) by lra.
  pose proof (taper_curve_decreasing L x (IZR L) HL Hx0 Hx2 ltac:(lra))
    as Hdec.
  rewrite taper_curve_end in Hdec by exact HL.
  split; [exact Hdec|].
  unfold taper_curve in *.
  assert (Hang : PI - alp < PI * x / IZR L < PI).
  { split.
    - apply Rmult_lt_reg_r with (IZR L); [assumption|].
      replace (PI * x / IZR L * IZR L) with (PI * x) by (field; lra).
      assert (IZR L - alp * IZR L / PI < x) by lra.
      assert (PI * (IZR L - alp * IZR L / PI) < PI * x)
        by (apply Rmult_lt_compat_l; lra).
      replace (PI * (IZR L - alp * IZR L / PI)) with ((PI - alp) * IZR L)
        in * by (field; lra).
      lra.
    - replace PI with (PI * IZR L / IZR L) at 2 by (field; lra).
      apply angle_lt; assumption. }
  specialize (Hcont (PI * x / IZR L)).
  simpl in Hcont. unfold Rdist, D_x, no_cond in Hcont.
  assert (Hc : Rabs (cos (PI * x / IZR L) - cos PI) < eps).
  { apply Hcont. split; [split; [exact I|lra]|].
    rewrite Rabs_left by lra. lra. }
  rewrite cos_PI in Hc.
  pose proof (COS_bound (PI * x / IZR L)) as [Hlo _].
  rewrite Rabs_right in Hc by lra. lra.
Qed.

(** C9.  [taper_pixel_contribution] is [0.5 * (1 + cos (pi * step /
    streamlength))].  For [streamlength >= 1] it is 1 at step 0, strictly
    decreasing in the step on [[0, streamlength]], positive and at most 1
    before [streamlength], 0 at [streamlength], and along the cosine curve it
    comes arbitrarily close to 0 as the step approaches [streamlength]. *)
Theorem taper_is_decreasing_cosine_window :
  (forall streamlength step,
     taper_pixel_contribution streamlength step
     = 0.5 * (1 + cos (PI * IZR step / IZR streamlength)))
  /\ forall streamlength, (1 <= streamlength)%Z ->
       taper_pixel_contribution streamlength 0 = 1
       /\ (forall step1 step2,
             (0 <= step1 < step2)%Z -> (step2 <= streamlength)%Z ->
             taper_pixel_contribution streamlength step2
             < taper_pixel_contribution streamlength step1)
       /\ (forall step, (0 <= step < streamlength)%Z ->
             0 < taper_pixel_contribution streamlength step <= 1)
       /\ taper_pixel_contribution streamlength streamlength = 0
       /\ (forall eps, 0 < eps ->
             exists delta, 0 < delta
               /\ forall x, IZR streamlength - delta < x < IZR streamlength ->
                    0 < taper_curve streamlength x < eps).
Proof.
  split; [reflexivity|]. intros L HL.
  assert (Hdec : forall step1 step2,
            (0 <= step1 < step2)%Z -> (step2 <= L)%Z ->
            taper_pixel_contribution L step2
            < taper_pixel_contribution L step1).
  { intros s1 s2 [H1 H2] H3. rewrite !taper_curve_at.
    apply taper_curve_decreasing; [exact HL|..].
    - apply IZR_le. exact H1.
    - apply IZR_lt. exact H2.
    - apply IZR_le. exact H3. }
  assert (Hend : taper_pixel_contribution L L = 0)
    by (rewrite taper_curve_at; apply taper_curve_end; exact HL).
  assert (Hstart : taper_pixel_contribution L 0 = 1)
    by (rewrite taper_curve_at; apply taper_curve_start).
  split; [exact Hstart|]. split; [exact Hdec|]. split; [|split].
  - intros s [Hs1 Hs2]. split.
    + rewrite <- Hend. apply Hdec; lia.
    + destruct (Z.eq_dec s 0%Z) as [->|Hne]; [lra|].
      rewrite <- Hstart. left. apply Hdec; lia.
  - exact Hend.
  - intros eps Heps. apply taper_curve_limit; assumption.
Qed.

Lemma taper_is_decreasing_cosine_window_witness :
  (1 <= 2)%Z
  /\ taper_pixel_contribution 2 0 = 1
  /\ taper_pixel_contribution 2 1 < taper_pixel_contribution 2 0
  /\ taper_pixel_contribution 2 2 = 0.
Proof.
  destruct taper_is_decreasing_cosine_window as [_ Hw].
  destruct (Hw 2%Z ltac:(lia)) as (Hstart & Hdec & _ & Hend & _).
  split; [lia|]. split; [exact Hstart|]. split; [|exact Hend].
  apply Hdec; lia.
Defined.

(** ** Writing the output array *)

Lemma getitem2_lookup (g : grid) (nr nc r c : Z) :
  gshape g nr nc -> (0 <= r < nr)%Z -> (0 <= c < nc)%Z ->
  exists row x,
    g !! Z.to_nat r = Some row /\ row !! Z.to_nat c = Some x
    /\ getitem2 g r c = Ok x.
Proof.
  intros Hg Hr Hc. unfold getitem2.
  destruct (getitem_in_range g r) as (row & Hrow & ->); [destruct Hg; lia|].
  simpl. pose proof (list_elem_of_lookup_2 _ _ _ Hrow) as Hin.
  pose proof (gshape_row _ _ _ _ Hg Hin) as Hlen.
  destruct (getitem_in_range row c) as (x & Hx & ->); [lia|]. eauto.
Qed.

(** Two arrays of one shape with the same cells are equal. *)
Lemma grid_ext (g1 g2 : grid) (nr nc : Z) :
  gshape g1 nr nc -> gshape g2 nr nc ->
  (forall r c, (0 <= r < nr)%Z -> (0 <= c < nc)%Z ->
     getitem2 g1 r c = getitem2 g2 r c) ->
  g1 = g2.
Proof.
  intros H1 H2 Hcells. apply list_eq. intros i.
  destruct (decide (i < length g1)%nat) as [Hi|Hi].
  - assert (Hr : (0 <= Z.of_nat i < nr)%Z) by (destruct H1; lia).
    destruct (lookup_lt_is_Some_2 g1 i Hi) as [row1 Hrow1].
    destruct (lookup_lt_is_Some_2 g2 i) as [row2 Hrow2];
      [destruct H1, H2; lia|].
    rewrite Hrow1, Hrow2. f_equal. apply list_eq. intros j.
    pose proof (gshape_row _ _ _ _ H1 (list_elem_of_lookup_2 _ _ _ Hrow1))
      as Hlen1.
    pose proof (gshape_row _ _ _ _ H2 (list_elem_of_lookup_2 _ _ _ Hrow2))
      as Hlen2.
    destruct (decide (j < length row1)%nat) as [Hj|Hj].
    + assert (Hc : (0 <= Z.of_nat j < nc)%Z) by lia.
      specialize (Hcells _ _ Hr Hc).
      destruct (getitem2_lookup g1 nr nc _ _ H1 Hr Hc)
        as (r1 & x1 & Hr1 & Hx1 & Hg1).
      destruct (getitem2_lookup g2 nr nc _ _ H2 Hr Hc)
        as (r2 & x2 & Hr2 & Hx2 & Hg2).
      rewrite Nat2Z.id in Hr1, Hr2, Hx1, Hx2.
      rewrite Hrow1 in Hr1. rewrite Hrow2 in Hr2.
      injection Hr1 as <-. injection Hr2 as <-.
      rewrite Hx1, Hx2. rewrite Hg1, Hg2 in Hcells. congruence.
    + rewrite !lookup_ge_None_2 by lia. reflexivity.
  - rewrite !lookup_ge_None_2 by (destruct H1, H2; lia). reflexivity.
Qed.

(** A write inside the array keeps the shape, stores the value and leaves
    the other cells alone. *)
Lemma setitem2_in_range (g : grid) (nr nc r c : Z) (x : R) :
  gshape g nr nc -> (0 <= r < nr)%Z -> (0 <= c < nc)%Z ->
  exists g',
    setitem2 g r c x = Ok g' /\ gshape g' nr nc
    /\ getitem2 g' r c = Ok x
    /\ forall r' c', (0 <= r' < nr)%Z -> (0 <= c' < nc)%Z ->
         (r', c') <> (r, c) -> getitem2 g' r' c' = getitem2 g r' c'.
Proof.
  intros Hg Hr Hc. pose proof Hg as [Hlen Hrows].
  destruct (getitem_in_range g r) as (row & Hrow & Hget); [lia|].
  pose proof (gshape_row _ _ _ _ Hg (list_elem_of_lookup_2 _ _ _ Hrow))
    as Hrlen.
  set (g' := <[Z.to_nat r := <[Z.to_nat c := x]> row]> g).
  assert (Hg' : gshape g' nr nc).
  { split; [unfold g'; rewrite length_insert; exact Hlen|].
    apply Forall_insert; [exact Hrows|]. rewrite length_insert. exact Hrlen. }
  assert (Hrow' : g' !! Z.to_nat r = Some (<[Z.to_nat c := x]> row)).
  { apply list_lookup_insert_eq. lia. }
  exists g'. split; [|split; [exact Hg'|split]].
  - unfold setitem2. rewrite resolve_in_range by lia. simpl.
    rewrite Hget. simpl. rewrite resolve_in_range by lia. reflexivity.
  - destruct (getitem2_lookup g' nr nc r c Hg' Hr Hc)
      as (row1 & x1 & Hr1 & Hx1 & ->).
    rewrite Hrow' in Hr1. injection Hr1 as <-.
    rewrite list_lookup_insert_eq in Hx1 by lia. congruence.
  - intros r' c' Hr' Hc' Hne.
    destruct (getitem2_lookup g' nr nc r' c' Hg' Hr' Hc')
      as (row1 & x1 & Hr1 & Hx1 & ->).
    destruct (getitem2_lookup g nr nc r' c' Hg Hr' Hc')
      as (row2 & x2 & Hr2 & Hx2 & ->).
    f_equal. destruct (decide (r' = r)) as [->|Hrne].
    + rewrite Hrow' in Hr1. injection Hr1 as <-.
      rewrite Hrow in Hr2. injection Hr2 as <-.
      rewrite list_lookup_insert_ne in Hx1; [congruence|].
      intros Heq. apply Hne. f_equal. lia.
    + unfold g' in Hr1. rewrite list_lookup_insert_ne in Hr1 by lia.
      congruence.
Qed.

Lemma np_zeros_shape (nr nc : Z) :
  (0 <= nr)%Z -> (0 <= nc)%Z -> gshape (np_zeros nr nc) nr nc.
Proof.
  intros Hnr Hnc. unfold np_zeros. split.
  - rewrite length_replicate. lia.
  - apply Forall_replicate. rewrite length_replicate. lia.
Qed.

Lemma np_zeros_cell (nr nc r c : Z) :
  (0 <= r < nr)%Z -> (0 <= c < nc)%Z -> getitem2 (np_zeros nr nc) r c = Ok 0.
Proof.
  intros Hr Hc.
  destruct (getitem2_lookup (np_zeros nr nc) nr nc r c)
    as (row & x & Hrow & Hx & ->); [apply np_zeros_shape; lia|lia|lia|].
  unfold np_zeros in Hrow. apply lookup_replicate in Hrow as [-> _].
  apply lookup_replicate in Hx as [-> _]. reflexivity.
Qed.

(** ** The driver *)

Lemma pixel_task_value (vfield : vgrid) (sfield_in : grid) (streamlength : Z)
    (periodic : bool) (row col : Z) (sfield_out : grid) :
  pixel_task vfield sfield_in streamlength periodic row col sfield_out
  = do v <~ pixel_value vfield sfield_in streamlength periodic row col ;;
    setitem2 sfield_out row col v.
Proof.
  unfold pixel_task, pixel_value.
  destruct (advect_streamline vfield sfield_in row col 1 streamlength periodic)
    as [[fs ft]|f]; [|reflexivity]. simpl.
  destruct (advect_streamline vfield sfield_in row col (-1) streamlength
              periodic) as [[bs bt]|f]; [|reflexivity]. simpl.
  destruct (decide (ft + bt > 0)); reflexivity.
Qed.

Lemma run_tasks_app {T : Type} (task : T -> grid -> res grid)
    (ts1 ts2 : list T) (out : grid) :
  run_tasks task (ts1 ++ ts2) out
  = do out' <~ run_tasks task ts1 out ;; run_tasks task ts2 out'.
Proof.
  revert out. induction ts1 as [|t ts1 IH]; intros out; simpl; [reflexivity|].
  destruct (task t out) as [out1|f]; simpl; [apply IH|reflexivity].
Qed.

Lemma run_tasks_fmap {T U : Type} (task : U -> grid -> res grid) (f : T -> U)
    (ts : list T) (out : grid) :
  run_tasks task (f <$> ts) out = run_tasks (fun t => task (f t)) ts out.
Proof.
  revert out. induction ts as [|t ts IH]; intros out; simpl; [reflexivity|].
  destruct (task (f t) out) as [out1|e]; simpl; [apply IH|reflexivity].
Qed.

(** The nested loops visit the pixels row by row. *)
Lemma compute_lic_as_schedule (vfield : vgrid) (sfield_in sfield_out : grid)
    (streamlength num_rows num_cols : Z) (periodic : bool) :
  _compute_lic vfield sfield_in sfield_out streamlength num_rows num_cols
    periodic
  = run_schedule vfield sfield_in sfield_out streamlength periodic
      (pixels num_rows num_cols).
Proof.
  unfold _compute_lic, run_schedule, pixels.
  generalize (range num_rows) as rows. intros rows. revert sfield_out.
  induction rows as [|row rows IH]; intros out; [reflexivity|].
  simpl. rewrite run_tasks_app, run_tasks_fmap.
  destruct (run_tasks _ (range num_cols) out) as [out1|f]; simpl;
    [apply IH|reflexivity].
Qed.

Lemma elem_of_pixels (num_rows num_cols row col : Z) :
  (row, col) ∈ pixels num_rows num_cols
  <-> (0 <= row < num_rows)%Z /\ (0 <= col < num_cols)%Z.
Proof.
  unfold pixels. rewrite list_elem_of_bind. split.
  - intros (r & Hin & Hr).
    apply list_elem_of_fmap in Hin as (c & [= -> ->] & Hc).
    split; apply range_spec; assumption.
  - intros [Hr Hc]. exists row. split; [|apply range_spec; exact Hr].
    apply list_elem_of_fmap. exists col. split; [reflexivity|].
    apply range_spec. exact Hc.
Qed.

Section Driver.

Variables (vfield : vgrid) (sfield_in : grid).
Variables (streamlength : Z) (periodic : bool).
Variables (nr nc : Z).
Hypothesis Hvfield : vshape vfield nr nc.
Hypothesis Hsfield : gshape sfield_in nr nc.

Lemma pixel_value_ok (row col : Z) :
  (0 <= row < nr)%Z -> (0 <= col < nc)%Z ->
  exists fs ft bs bt,
    advect_streamline vfield sfield_in row col 1 streamlength periodic
      = Ok (fs, ft)
    /\ advect_streamline vfield sfield_in row col (-1) streamlength periodic
       = Ok (bs, bt)
    /\ pixel_value vfield sfield_in streamlength periodic row col
       = Ok (if decide (ft + bt > 0) then (fs + bs) / (ft + bt) else 0).
Proof.
  intros Hr Hc.
  destruct (advect_streamline_ok vfield sfield_in 1 streamlength periodic
              nr nc Hvfield Hsfield row col Hr Hc) as (sf & _ & _ & Hf).
  destruct (advect_streamline_ok vfield sfield_in (-1) streamlength periodic
              nr nc Hvfield Hsfield row col Hr Hc) as (sb & _ & _ & Hb).
  do 4 eexists. split; [exact Hf|]. split; [exact Hb|].
  unfold pixel_value. rewrite Hf, Hb. reflexivity.
Qed.

(** Running any list of in-grid pixel tasks: every scheduled pixel holds its
    own value, every other cell is untouched. *)
Lemma run_schedule_cells (schedule : list (Z * Z)) (sfield_out : grid) :
  gshape sfield_out nr nc ->
  Forall (fun p => (0 <= p.1 < nr)%Z /\ (0 <= p.2 < nc)%Z) schedule ->
  exists out,
    run_schedule vfield sfield_in sfield_out streamlength periodic schedule
      = Ok out
    /\ gshape out nr nc
    /\ forall row col, (0 <= row < nr)%Z -> (0 <= col < nc)%Z ->
         getitem2 out row col
         = if decide ((row, col) ∈ schedule)
           then pixel_value vfield sfield_in streamlength periodic row col
           else getitem2 sfield_out row col.
Proof.
  intros Hout Hsched. revert sfield_out Hout. unfold run_schedule.
  induction Hsched as [|[r0 c0] rest [Hr0 Hc0] _ IH]; intros out0 Hout0.
  - exists out0. split; [reflexivity|]. split; [exact Hout0|].
    intros row col _ _. rewrite decide_False; [reflexivity|].
    apply not_elem_of_nil.
  - simpl in Hr0, Hc0. simpl. rewrite pixel_task_value.
    destruct (pixel_value_ok r0 c0 Hr0 Hc0)
      as (fs & ft & bs & bt & _ & _ & Hval).
    rewrite Hval. simpl.
    destruct (setitem2_in_range out0 nr nc r0 c0
                (if decide (ft + bt > 0) then (fs + bs) / (ft + bt) else 0)
                Hout0 Hr0 Hc0) as (out1 & -> & Hout1 & Hnew & Hold).
    simpl. destruct (IH out1 Hout1) as (out & Hrun & Hshape & Hcells).
    exists out. split; [exact Hrun|]. split; [exact Hshape|].
    intros row col Hr Hc. rewrite (Hcells row col Hr Hc).
    destruct (decide ((row, col) ∈ rest)) as [Hin|Hnin].
    + rewrite decide_True; [reflexivity|]. right. exact Hin.
    + destruct (decide ((row, col) = (r0, c0))) as [[= -> ->]|Hne].
      * rewrite decide_True by left. rewrite Hnew, Hval. reflexivity.
      * rewrite decide_False.
        -- apply Hold; assumption.
        -- intros Hin. apply elem_of_cons in Hin as [Heq|Hin]; tauto.
Qed.

End Driver.



(** ** Independence of the order of the pixel tasks *)



(** ** Zero fields and zero stream length *)

Lemma for_loop_breaks_at_once (body : Z -> state -> res ctl)
    (steps : list Z) (s : state) :
  (forall step, body step s = Ok Break) -> for_loop body steps s = Ok s.
Proof.
  intros Hbrk. destruct steps as [|step rest]; simpl; [reflexivity|].
  rewrite Hbrk. reflexivity.
Qed.

Lemma advect_streamline_no_steps (vfield : vgrid) (sfield_in : grid)
    (start_row start_col dir_sgn streamlength : Z) (periodic : bool) :
  (streamlength <= 0)%Z ->
  advect_streamline vfield sfield_in start_row start_col dir_sgn streamlength
    periodic = Ok (0, 0).
Proof.
  intros HL. unfold advect_streamline. rewrite range_nonpos by exact HL.
  reflexivity.
Qed.

Lemma advect_streamline_zero_field (vfield : vgrid) (sfield_in : grid)
    (nr nc start_row start_col dir_sgn streamlength : Z) (periodic : bool) :
  vshape vfield nr nc ->
  (forall k r c v, getitem3 vfield k r c = Ok v -> v = 0) ->
  (0 <= start_row < nr)%Z -> (0 <= start_col < nc)%Z ->
  advect_streamline vfield sfield_in start_row start_col dir_sgn streamlength
    periodic = Ok (0, 0).
Proof.
  intros Hv Hzero Hr Hc. unfold advect_streamline.
  rewrite for_loop_breaks_at_once; [reflexivity|].
  intros step. apply loop_body_stalled. unfold stalled_at.
  rewrite cell_of_init_state. simpl.
  destruct (getitem3_in_range vfield nr nc 0 _ _ Hv ltac:(lia) Hr Hc)
    as [v0 Hv0].
  destruct (getitem3_in_range vfield nr nc 1 _ _ Hv ltac:(lia) Hr Hc)
    as [v1 Hv1].
  exists v0, v1. split; [exact Hv0|]. split; [exact Hv1|].
  rewrite (Hzero _ _ _ _ Hv0), (Hzero _ _ _ _ Hv1). split; ring.
Qed.

Lemma getitem3_elem (v : vgrid) (k r c : Z) (x : R) :
  getitem3 v k r c = Ok x ->
  exists comp row, comp ∈ v /\ row ∈ comp /\ x ∈ row.
Proof.
  unfold getitem3. intros H. apply res_bind_Ok in H as (comp & Hcomp & H).
  apply getitem_elem in Hcomp.
  apply getitem2_elem in H as (row & Hrow & Hx). eauto.
Qed.

Lemma vfield_zero_shape : vshape vfield_zero 2 2.
Proof. split; [reflexivity|]. repeat constructor. Qed.

Lemma vfield_zero_everywhere (k r c : Z) (v : R) :
  getitem3 vfield_zero k r c = Ok v -> v = 0.
Proof.
  intros H. apply getitem3_elem in H as (comp & row & Hcomp & Hrow & Hv).
  assert (Hall : Forall (Forall (Forall (fun x => x = 0))) vfield_zero)
    by (repeat constructor).
  rewrite Forall_forall in Hall. specialize (Hall comp Hcomp).
  rewrite Forall_forall in Hall. specialize (Hall row Hrow).
  rewrite Forall_forall in Hall. exact (Hall v Hv).
Qed.

(** C7.  On an [R] by [C] grid with [R > 0] and [C > 0], if the vector field
    is zero in every cell or [streamlength = 0], then in both boundary modes
    every advection call seeded in the grid returns weighted sum 0 and total
    weight 0, and the output grid is all zeros. *)
Theorem zero_field_or_no_steps_gives_zero_image
    (vfield : vgrid) (sfield_in sfield_out : grid) (streamlength nr nc : Z)
    (periodic : bool) :
  (0 < nr)%Z -> (0 < nc)%Z ->
  vshape vfield nr nc -> gshape sfield_in nr nc -> gshape sfield_out nr nc ->
  (forall k r c v, getitem3 vfield k r c = Ok v -> v = 0)
  \/ streamlength = 0%Z ->
  (forall row col dir_sgn, (0 <= row < nr)%Z -> (0 <= col < nc)%Z ->
     advect_streamline vfield sfield_in row col dir_sgn streamlength periodic
     = Ok (0, 0))
  /\ _compute_lic vfield sfield_in sfield_out streamlength nr nc periodic
     = Ok (np_zeros nr nc)
  /\ forall row col, (0 <= row < nr)%Z -> (0 <= col < nc)%Z ->
       getitem2 (np_zeros nr nc) row col = Ok 0.
Proof.
  intros Hnr Hnc Hv Hs Hout Hcase.
  assert (Hadv : forall row col dir_sgn,
            (0 <= row < nr)%Z -> (0 <= col < nc)%Z ->
            advect_streamline vfield sfield_in row col dir_sgn streamlength
              periodic = Ok (0, 0)).
  { intros row col dir_sgn Hr Hc. destruct Hcase as [Hzero| ->].
    - eapply advect_streamline_zero_field; eauto.
    - apply advect_streamline_no_steps. lia. }
  split; [exact Hadv|]. split; [|intros; apply np_zeros_cell; assumption].
  destruct (run_schedule_cells vfield sfield_in streamlength periodic nr nc
              Hv Hs (pixels nr nc) sfield_out Hout)
    as (out & Hrun & Hshape & Hcells).
  { apply Forall_forall. intros [r c] Hin. apply elem_of_pixels in Hin.
    exact Hin. }
  rewrite compute_lic_as_schedule, Hrun. f_equal.
  apply (grid_ext out (np_zeros nr nc) nr nc Hshape);
    [apply np_zeros_shape; lia|].
  intros row col Hr Hc. rewrite (Hcells row col Hr Hc).
  rewrite decide_True by (apply elem_of_pixels; auto).
  rewrite np_zeros_cell by assumption.
  unfold pixel_value. rewrite !Hadv by assumption. simpl.
  rewrite decide_False by lra. reflexivity.
Qed.

Lemma zero_field_or_no_steps_gives_zero_image_witness :
  (0 < 2)%Z /\ (0 < 2)%Z
  /\ vshape vfield_zero 2 2 /\ vshape vfield_right 2 2
  /\ gshape sfield_cols 2 2
  /\ (forall k r c v, getitem3 vfield_zero k r c = Ok v -> v = 0)
  /\ _compute_lic vfield_zero sfield_cols sfield_cols 2 2 2 true
     = Ok (np_zeros 2 2)
  /\ _compute_lic vfield_right sfield_cols sfield_cols 0 2 2 false
     = Ok (np_zeros 2 2).
Proof.
  split; [lia|]. split; [lia|].
  split; [exact vfield_zero_shape|]. split; [exact vfield_right_shape|].
  split; [exact sfield_cols_shape|]. split; [exact vfield_zero_everywhere|].
  split.
  - apply (zero_field_or_no_steps_gives_zero_image vfield_zero sfield_cols
             sfield_cols 2 2 2 true ltac:(lia) ltac:(lia) vfield_zero_shape
             sfield_cols_shape sfield_cols_shape
             (or_introl vfield_zero_everywhere)).
  - apply (zero_field_or_no_steps_gives_zero_image vfield_right sfield_cols
             sfield_cols 0 2 2 false ltac:(lia) ltac:(lia) vfield_right_shape
             sfield_cols_shape sfield_cols_shape (or_intror eq_refl)).
Defined.

(** ** The weights are positive *)

Lemma taper_positive (streamlength step : Z) :
  (0 <= step < streamlength)%Z ->
  0 < taper_pixel_contribution streamlength step.
Proof.
  intros [H1 H2]. rewrite taper_curve_at.
  rewrite <- (taper_curve_end streamlength) by lia.
  apply taper_curve_decreasing; [lia|..].
  - apply IZR_le. exact H1.
  - apply IZR_lt. exact H2.
  - lra.
Qed.

(** ** Worked examples: a rightward field on a 2 by 2 grid *)

Lemma loop_body_moving (vfield : vgrid) (sfield_in : grid)
    (dir_sgn streamlength : Z) (periodic : bool) (step : Z) (s : state)
    (v0 v1 t : R) :
  getitem3 vfield 0 (cell_of s).1 (cell_of s).2 = Ok v0 ->
  getitem3 vfield 1 (cell_of s).1 (cell_of s).2 = Ok v1 ->
  ~ (IZR dir_sgn * v1 = 0 /\ IZR dir_sgn * v0 = 0) ->
  xmin (delta_time_col (col_float s) (IZR dir_sgn * v0))
       (delta_time_row (row_float s) (IZR dir_sgn * v1)) = Finite t ->
  loop_body vfield sfield_in dir_sgn streamlength periodic step s
  = finish_step vfield sfield_in streamlength periodic step
      (cell_of s).1 (cell_of s).2
      (row_float s + IZR dir_sgn * v1 * t)
      (col_float s + IZR dir_sgn * v0 * t) s.
Proof.
  intros Hv0 Hv1 Hmove Ht. unfold loop_body. simpl in Hv0, Hv1.
  rewrite Hv0, Hv1. simpl. rewrite bool_decide_eq_false_2.
  - unfold advance. rewrite Ht. reflexivity.
  - intros [H1 H0]. apply Hmove. split; apply Rabs_zero_iff; assumption.
Qed.

Lemma pymod_eval (x : R) (n q : Z) (y : R) :
  n <> 0%Z -> IZR q <= x / IZR n < IZR q + 1 -> y = x - IZR n * IZR q ->
  pymod x n = Ok y.
Proof.
  intros Hn Hq ->. unfold pymod. rewrite decide_False by exact Hn.
  rewrite (Zfloor_eq q) by exact Hq. reflexivity.
Qed.

Lemma taper_2_0 : taper_pixel_contribution 2 0 = 1.
Proof. rewrite taper_curve_at. apply taper_curve_start. Qed.

Lemma taper_2_1 : taper_pixel_contribution 2 1 = 0.5.
Proof.
  unfold taper_pixel_contribution.
  replace (PI * 1 / 2) with (PI / 2) by lra. rewrite cos_PI2. lra.
Qed.

Lemma cell_of_integer (r c : Z) (ws tw : R) :
  cell_of (mkState (IZR r) (IZR c) ws tw) = (r, c).
Proof. unfold cell_of. simpl. rewrite !ZfloorZ. reflexivity. Qed.

Lemma periodic_step_eval (vfield : vgrid) (sfield_in : grid)
    (dir_sgn streamlength step : Z) (s : state)
    (v0 v1 t row' col' sample : R) :
  getitem3 vfield 0 (cell_of s).1 (cell_of s).2 = Ok v0 ->
  getitem3 vfield 1 (cell_of s).1 (cell_of s).2 = Ok v1 ->
  getitem2 sfield_in (cell_of s).1 (cell_of s).2 = Ok sample ->
  ~ (IZR dir_sgn * v1 = 0 /\ IZR dir_sgn * v0 = 0) ->
  xmin (delta_time_col (col_float s) (IZR dir_sgn * v0))
       (delta_time_row (row_float s) (IZR dir_sgn * v1)) = Finite t ->
  pymod (row_float s + IZR dir_sgn * v1 * t + IZR (shape1 vfield))
    (shape1 vfield) = Ok row' ->
  pymod (col_float s + IZR dir_sgn * v0 * t + IZR (shape2 vfield))
    (shape2 vfield) = Ok col' ->
  loop_body vfield sfield_in dir_sgn streamlength true step s
  = Ok (Next (mkState row' col'
          (weighted_sum s
           + taper_pixel_contribution streamlength step * sample)
          (total_weight s + taper_pixel_contribution streamlength step))).
Proof.
  intros Hv0 Hv1 Hsample Hmove Ht Hrow Hcol.
  rewrite (loop_body_moving _ _ _ _ _ _ _ _ _ _ Hv0 Hv1 Hmove Ht).
  unfold finish_step. rewrite Hrow, Hcol. simpl.
  unfold accumulate. simpl in Hsample. rewrite Hsample. reflexivity.
Qed.

Lemma open_step_eval (vfield : vgrid) (sfield_in : grid)
    (dir_sgn streamlength step : Z) (s : state) (v0 v1 t : R) :
  getitem3 vfield 0 (cell_of s).1 (cell_of s).2 = Ok v0 ->
  getitem3 vfield 1 (cell_of s).1 (cell_of s).2 = Ok v1 ->
  ~ (IZR dir_sgn * v1 = 0 /\ IZR dir_sgn * v0 = 0) ->
  xmin (delta_time_col (col_float s) (IZR dir_sgn * v0))
       (delta_time_row (row_float s) (IZR dir_sgn * v1)) = Finite t ->
  let row' := row_float s + IZR dir_sgn * v1 * t in
  let col' := col_float s + IZR dir_sgn * v0 * t in
  (in_domain (shape1 vfield) (shape2 vfield) row' col' ->
   forall sample,
     getitem2 sfield_in (cell_of s).1 (cell_of s).2 = Ok sample ->
     loop_body vfield sfield_in dir_sgn streamlength false step s
     = Ok (Next (mkState row' col'
             (weighted_sum s
              + taper_pixel_contribution streamlength step * sample)
             (total_weight s + taper_pixel_contribution streamlength step))))
  /\ (~ in_domain (shape1 vfield) (shape2 vfield) row' col' ->
      loop_body vfield sfield_in dir_sgn streamlength false step s
      = Ok Break).
Proof.
  intros Hv0 Hv1 Hmove Ht row' col'.
  rewrite (loop_body_moving _ _ _ _ _ _ _ _ _ _ Hv0 Hv1 Hmove Ht).
  unfold finish_step. fold row' col'. split.
  - intros Hin sample Hsample. rewrite bool_decide_eq_true_2 by exact Hin.
    unfold accumulate. rewrite Hsample. reflexivity.
  - intros Hout. rewrite bool_decide_eq_false_2 by exact Hout. reflexivity.
Qed.

Lemma right_step_time (row col : Z) :
  xmin (delta_time_col (IZR col) (IZR 1 * 1))
       (delta_time_row (IZR row) (IZR 1 * 0)) = Finite 1.
Proof.
  unfold delta_time_col, delta_time_row.
  rewrite (decide_True (P := IZR 1 * 1 > 0)) by lra.
  rewrite (decide_False (P := IZR 1 * 0 > 0)) by lra.
  rewrite (decide_False (P := IZR 1 * 0 < 0)) by lra.
  simpl. rewrite ZfloorZ. f_equal. field.
Qed.

Example advect_right_periodic :
  advect_streamline vfield_right sfield_cols 1 0 1 2 true = Ok (0.5, 1.5).
Proof.
  unfold advect_streamline.
  change (range 2) with [0; 1]%Z.
  unfold for_loop, init_state.
  rewrite (periodic_step_eval vfield_right sfield_cols 1 2 0
             (mkState 1 0 0 0) 1 0 1 1 1 0).
  2-4: rewrite cell_of_integer; reflexivity.
  2: intros [_ H]; lra.
  2: apply (right_step_time 1 0).
  2: { change (shape1 vfield_right) with 2%Z.
       apply (pymod_eval _ _ 1); simpl; [discriminate|lra|lra]. }
  2: { change (shape2 vfield_right) with 2%Z.
       apply (pymod_eval _ _ 1); simpl; [discriminate|lra|lra]. }
  rewrite (periodic_step_eval vfield_right sfield_cols 1 2 1
             (mkState 1 1 _ _) 1 0 1 1 0 1).
  2-4: rewrite cell_of_integer; reflexivity.
  2: intros [_ H]; lra.
  2: apply (right_step_time 1 1).
  2: { change (shape1 vfield_right) with 2%Z.
       apply (pymod_eval _ _ 1); simpl; [discriminate|lra|lra]. }
  2: { change (shape2 vfield_right) with 2%Z.
       apply (pymod_eval _ _ 2); simpl; [discriminate|lra|lra]. }
  simpl. rewrite taper_2_0, taper_2_1. do 2 f_equal; lra.
Qed.

Ltac domain_2x2 :=
  unfold in_domain;
  change (shape1 vfield_right) with 2%Z;
  change (shape2 vfield_right) with 2%Z;
  simpl; lra.

Example advect_right_open :
  advect_streamline vfield_right sfield_cols 1 0 1 2 false = Ok (0, 1).
Proof.
  unfold advect_streamline.
  change (range 2) with [0; 1]%Z.
  unfold for_loop, init_state.
  destruct (open_step_eval vfield_right sfield_cols 1 2 0
              (mkState 1 0 0 0) 1 0 1) as [Hin _].
  1-2: rewrite cell_of_integer; reflexivity.
  1: intros [_ H]; lra.
  1: apply (right_step_time 1 0).
  rewrite (Hin ltac:(domain_2x2) 0)
    by (rewrite cell_of_integer; reflexivity).
  clear Hin. cbn [row_float col_float weighted_sum total_weight].
  replace (1 + IZR 1 * 0 * 1) with 1 by lra.
  replace (0 + IZR 1 * 1 * 1) with 1 by lra.
  destruct (open_step_eval vfield_right sfield_cols 1 2 1
              (mkState 1 1 (0 + taper_pixel_contribution 2 0 * 0)
                 (0 + taper_pixel_contribution 2 0)) 1 0 1) as [_ Hout].
  1-2: rewrite cell_of_integer; reflexivity.
  1: intros [_ H]; lra.
  1: apply (right_step_time 1 1).
  rewrite Hout by domain_2x2.
  simpl. rewrite taper_2_0. do 2 f_equal; lra.
Qed.

(** From the seed (1, 0) the open streamline leaves the grid in its second
    step and collects less weight than the periodic one. *)
Example open_collects_less_than_periodic :
  exists ws_open tw_open ws_per tw_per,
    advect_streamline vfield_right sfield_cols 1 0 1 2 false
      = Ok (ws_open, tw_open)
    /\ advect_streamline vfield_right sfield_cols 1 0 1 2 true
       = Ok (ws_per, tw_per)
    /\ tw_open < tw_per.
Proof.
  exists 0, 1, 0.5, 1.5. split; [exact advect_right_open|].
  split; [exact advect_right_periodic|]. lra.
Qed.

(** * Further properties in exact arithmetic *)

(** ** The block of cells written by [_compute_lic] *)

Lemma compute_lic_cells (vfield : vgrid) (sfield_in sfield_out : grid)
    (streamlength nr nc num_rows num_cols : Z) (periodic : bool) :
  vshape vfield nr nc -> gshape sfield_in nr nc -> gshape sfield_out nr nc ->
  (num_rows <= nr)%Z -> (num_cols <= nc)%Z ->
  exists out,
    _compute_lic vfield sfield_in sfield_out streamlength num_rows num_cols
      periodic = Ok out
    /\ gshape out nr nc
    /\ forall row col, (0 <= row < nr)%Z -> (0 <= col < nc)%Z ->
         getitem2 out row col
         = if decide ((row < num_rows)%Z /\ (col < num_cols)%Z)
           then pixel_value vfield sfield_in streamlength periodic row col
           else getitem2 sfield_out row col.
Proof.
  intros Hv Hs Hout Hnr Hnc.
  destruct (run_schedule_cells vfield sfield_in streamlength periodic nr nc
              Hv Hs (pixels num_rows num_cols) sfield_out Hout)
    as (out & Hrun & Hshape & Hcells).
  { apply Forall_forall. intros [r c] Hin. apply elem_of_pixels in Hin.
    simpl. lia. }
  exists out. split; [rewrite compute_lic_as_schedule; exact Hrun|].
  split; [exact Hshape|]. intros row col Hr Hc.
  rewrite (Hcells row col Hr Hc).
  destruct (decide ((row, col) ∈ pixels num_rows num_cols)) as [Hin|Hnin].
  - apply elem_of_pixels in Hin. rewrite decide_True by lia. reflexivity.
  - rewrite decide_False; [reflexivity|].
    intros [H1 H2]. apply Hnin. apply elem_of_pixels. lia.
Qed.



(** ** [compute_lic] *)

Lemma gshape_grid_shape (g : grid) (nr nc : Z) :
  gshape g nr nc -> (0 < nr)%Z -> grid_shape g = (nr, nc).
Proof.
  intros [Hlen Hrows] Hpos. unfold grid_shape.
  destruct g as [|row g]; [simpl in Hlen; lia|].
  apply Forall_cons in Hrows as [Hrow _]. simpl in *. congruence.
Qed.


Lemma compute_lic_valid (rand : option Z -> Z -> Z -> grid)
    (vfield : vgrid) (sfield_in : option grid) (streamlength : option Z)
    (seed_sfield : option Z) (periodic : bool) :
  length vfield = 2%nat ->
  (forall g, sfield_in = Some g ->
     grid_shape g = (shape1 vfield, shape2 vfield)) ->
  compute_lic rand vfield sfield_in streamlength seed_sfield periodic
  = Computed
      (_compute_lic vfield
         (effective_sfield rand vfield sfield_in seed_sfield)
         (np_zeros (shape1 vfield) (shape2 vfield))
         (effective_streamlength vfield streamlength)
         (shape1 vfield) (shape2 vfield) periodic).
Proof.
  intros Hlen Hshape. unfold compute_lic.
  rewrite decide_True by lia.
  destruct sfield_in as [g|]; [|reflexivity].
  rewrite decide_True by (apply Hshape; reflexivity). reflexivity.
Qed.

Lemma kernel_all_zero (vfield : vgrid) (sfield_in sfield_out : grid)
    (streamlength nr nc : Z) (periodic : bool) :
  vshape vfield nr nc -> gshape sfield_in nr nc -> gshape sfield_out nr nc ->
  (forall row col, (0 <= row < nr)%Z -> (0 <= col < nc)%Z ->
     pixel_value vfield sfield_in streamlength periodic row col = Ok 0) ->
  _compute_lic vfield sfield_in sfield_out streamlength nr nc periodic
  = Ok (np_zeros nr nc).
Proof.
  intros Hv Hs Hout Hzero.
  destruct (compute_lic_cells vfield sfield_in sfield_out streamlength nr nc
              nr nc periodic Hv Hs Hout ltac:(lia) ltac:(lia))
    as (out & -> & Hshape & Hcells).
  f_equal. pose proof Hshape as [Hlen Hrows].
  destruct out as [|row0 out'].
  { simpl in Hlen. subst nr. reflexivity. }
  apply Forall_cons in Hrows as [Hrow0 _]. rewrite <- Hlen.
  apply (grid_ext (row0 :: out') _ (Z.of_nat (length (row0 :: out'))) nc).
  - rewrite Hlen. exact Hshape.
  - apply np_zeros_shape; lia.
  - rewrite Hlen. intros row col Hr Hc. rewrite (Hcells row col Hr Hc).
    rewrite decide_True by lia. rewrite np_zeros_cell by assumption.
    apply Hzero; assumption.
Qed.

Lemma pixel_value_no_steps (vfield : vgrid) (sfield_in : grid)
    (streamlength : Z) (periodic : bool) (row col : Z) :
  (streamlength <= 0)%Z ->
  pixel_value vfield sfield_in streamlength periodic row col = Ok 0.
Proof.
  intros HL. unfold pixel_value.
  rewrite !advect_streamline_no_steps by exact HL. simpl.
  rewrite decide_False by lra. reflexivity.
Qed.


Lemma rand_zeros_well_shaped : rand_well_shaped rand_zeros.
Proof. intros seed nr nc Hnr Hnc. apply np_zeros_shape; assumption. Qed.




(** X4.  With no stream length given, [compute_lic] uses
    [min(R, C) // 4]; on a grid with fewer than four rows or fewer than four
    columns that is 0, and the result is the all-zero image whatever the
    fields are. *)
Theorem compute_lic_small_grid_is_blank
    (rand : option Z -> Z -> Z -> grid) (vfield : vgrid)
    (sfield_in : option grid) (seed_sfield : option Z) (periodic : bool)
    (nr nc : Z) :
  vshape vfield nr nc -> (0 < nr)%Z -> rand_well_shaped rand ->
  (forall g, sfield_in = Some g -> gshape g nr nc) ->
  (Z.min nr nc < 4)%Z ->
  effective_streamlength vfield None = 0%Z
  /\ compute_lic rand vfield sfield_in None seed_sfield periodic
     = Computed (Ok (np_zeros nr nc)).
Proof.
  intros Hv Hnr Hrand Hs Hsmall.
  pose proof (vshape_shape1 _ _ _ Hv) as H1.
  pose proof (vshape_shape2 _ _ _ Hv Hnr) as H2.
  assert (Hnc : (0 <= nc)%Z) by (rewrite <- H2; unfold shape2; lia).
  assert (HL : effective_streamlength vfield None = 0%Z).
  { unfold effective_streamlength. rewrite H1, H2.
    apply Z.div_small. lia. }
  split; [exact HL|].
  rewrite compute_lic_valid.
  - rewrite HL, H1, H2. f_equal. apply kernel_all_zero.
    + exact Hv.
    + unfold effective_sfield. destruct sfield_in as [g|]; [auto|].
      rewrite H1, H2. apply Hrand; lia.
    + apply np_zeros_shape; lia.
    + intros row col _ _. apply pixel_value_no_steps. lia.
  - destruct Hv; assumption.
  - intros g Hg. rewrite H1, H2. apply gshape_grid_shape; auto.
Qed.

Lemma compute_lic_small_grid_is_blank_witness :
  vshape vfield_right 2 2 /\ (0 < 2)%Z /\ rand_well_shaped rand_zeros
  /\ (forall g, Some sfield_cols = Some g -> gshape g 2 2)
  /\ (Z.min 2 2 < 4)%Z
  /\ compute_lic rand_zeros vfield_right (Some sfield_cols) None None true
     = Computed (Ok (np_zeros 2 2)).
Proof.
  assert (Hs : forall g, Some sfield_cols = Some g -> gshape g 2 2).
  { intros g [= <-]. exact sfield_cols_shape. }
  split; [exact vfield_right_shape|]. split; [lia|].
  split; [exact rand_zeros_well_shaped|]. split; [exact Hs|].
  split; [lia|].
  apply (compute_lic_small_grid_is_blank rand_zeros vfield_right
           (Some sfield_cols) None true 2 2 vfield_right_shape ltac:(lia)
           rand_zeros_well_shaped Hs ltac:(lia)).
Defined.

(** ** What one iteration adds *)

Lemma taper_at_most_one (streamlength step : Z) :
  (0 <= step < streamlength)%Z ->
  taper_pixel_contribution streamlength step <= 1.
Proof.
  intros [H1 H2]. rewrite taper_curve_at.
  destruct (Z.eq_dec step 0%Z) as [->|Hne].
  - rewrite taper_curve_start. lra.
  - rewrite <- (taper_curve_start streamlength). left.
    apply taper_curve_decreasing;
      [lia|lra|apply IZR_lt; lia|apply IZR_le; lia].
Qed.

Lemma taper_first (streamlength : Z) :
  taper_pixel_contribution streamlength 0 = 1.
Proof. rewrite taper_curve_at. apply taper_curve_start. Qed.

(** An iteration that continues read a sample and added its weight. *)
Lemma loop_body_next (vfield : vgrid) (sfield_in : grid)
    (dir_sgn streamlength : Z) (periodic : bool) (step : Z) (s s' : state) :
  loop_body vfield sfield_in dir_sgn streamlength periodic step s
    = Ok (Next s') ->
  exists sample,
    getitem2 sfield_in (cell_of s).1 (cell_of s).2 = Ok sample
    /\ weighted_sum s'
       = weighted_sum s + taper_pixel_contribution streamlength step * sample
    /\ total_weight s'
       = total_weight s + taper_pixel_contribution streamlength step.
Proof.
  unfold loop_body.
  destruct (getitem3 vfield 0 _ _) as [v0|]; [simpl|discriminate].
  destruct (getitem3 vfield 1 _ _) as [v1|]; [simpl|discriminate].
  case_bool_decide; [discriminate|].
  destruct (advance _ _ _ _) as [[row' col']|]; [simpl|discriminate].
  unfold finish_step, accumulate.
  assert (Hacc : forall r c,
    (do sample <~
       getitem2 sfield_in (Zfloor (row_float s)) (Zfloor (col_float s)) ;;
     Ok (Next (mkState r c
           (weighted_sum s
            + taper_pixel_contribution streamlength step * sample)
           (total_weight s + taper_pixel_contribution streamlength step))))
    = Ok (Next s') ->
    exists sample,
      getitem2 sfield_in (cell_of s).1 (cell_of s).2 = Ok sample
      /\ weighted_sum s'
         = weighted_sum s
           + taper_pixel_contribution streamlength step * sample
      /\ total_weight s'
         = total_weight s + taper_pixel_contribution streamlength step).
  { intros r c Hres. simpl.
    destruct (getitem2 sfield_in _ _) as [sample|]; [|discriminate].
    simpl in Hres. injection Hres as <-. simpl. eauto. }
  destruct periodic.
  - destruct (pymod _ _) as [rw|]; [simpl|discriminate].
    destruct (pymod _ _) as [cw|]; [simpl|discriminate]. apply Hacc.
  - case_bool_decide; [apply Hacc|discriminate].
Qed.

(** The total weight grows by at most one per iteration and never falls. *)
Lemma for_loop_weight (vfield : vgrid) (sfield_in : grid)
    (dir_sgn streamlength : Z) (periodic : bool) (steps : list Z)
    (s s' : state) :
  Forall (fun step => (0 <= step < streamlength)%Z) steps ->
  for_loop (loop_body vfield sfield_in dir_sgn streamlength periodic) steps s
    = Ok s' ->
  total_weight s <= total_weight s'
  /\ total_weight s' <= total_weight s + INR (length steps).
Proof.
  intros Hsteps. revert s.
  induction Hsteps as [|step rest Hstep _ IH]; intros s Hloop.
  - simpl in Hloop. injection Hloop as <-. simpl. lra.
  - cbn [for_loop] in Hloop. rewrite length_cons, S_INR.
    pose proof (pos_INR (length rest)) as Hlen.
    destruct (loop_body _ _ _ _ _ step s) as [[s1|]|f] eqn:Hb;
      [|injection Hloop as <-; lra|discriminate].
    apply loop_body_next in Hb as (sample & _ & _ & Htw).
    pose proof (taper_positive streamlength step Hstep).
    pose proof (taper_at_most_one streamlength step Hstep).
    destruct (IH s1 Hloop) as [H1 H2]. lra.
Qed.

Lemma range_cons (n : Z) : (0 < n)%Z -> range n = 0%Z :: seqZ 1 (n - 1).
Proof.
  intros Hn. unfold range. rewrite seqZ_cons by lia.
  replace (Z.succ 0) with 1%Z by lia. replace (Z.pred n) with (n - 1)%Z by lia.
  reflexivity.
Qed.

Lemma range_tail_steps (n : Z) :
  Forall (fun step => (0 <= step < n)%Z) (seqZ 1 (n - 1)).
Proof.
  apply Forall_forall. intros step Hin. apply elem_of_seqZ in Hin. lia.
Qed.

(** The first iteration decides: either nothing is collected, or the seed
    cell counts with weight 1. *)
Lemma advect_streamline_first_step (vfield : vgrid) (sfield_in : grid)
    (start_row start_col dir_sgn streamlength : Z) (periodic : bool)
    (ws tw : R) :
  advect_streamline vfield sfield_in start_row start_col dir_sgn streamlength
    periodic = Ok (ws, tw) ->
  ((streamlength <= 0)%Z
   \/ loop_body vfield sfield_in dir_sgn streamlength periodic 0
        (init_state start_row start_col) = Ok Break)
  /\ ws = 0 /\ tw = 0
  \/ (1 <= streamlength)%Z
     /\ (exists s1,
           loop_body vfield sfield_in dir_sgn streamlength periodic 0
             (init_state start_row start_col) = Ok (Next s1))
     /\ 1 <= tw <= IZR streamlength.
Proof.
  intros Hres. destruct (decide (streamlength <= 0)%Z) as [HL|HL].
  { rewrite advect_streamline_no_steps in Hres by exact HL.
    injection Hres as <- <-. left. auto. }
  unfold advect_streamline in Hres. rewrite range_cons in Hres by lia.
  cbn [for_loop] in Hres.
  destruct (loop_body _ _ _ _ _ 0%Z _) as [[s1|]|f] eqn:Hb;
    [|simpl in Hres; injection Hres as <- <-; left; auto|discriminate].
  right. split; [lia|]. split; [eauto|].
  apply res_bind_Ok in Hres as (s' & Hloop & [= <- <-]).
  apply loop_body_next in Hb as (sample & _ & _ & Htw).
  simpl in Htw. rewrite taper_first in Htw.
  apply for_loop_weight in Hloop as [H1 H2]; [|apply range_tail_steps].
  rewrite length_seqZ in H2. rewrite INR_IZR_INZ in H2.
  rewrite Z2Nat.id in H2 by lia. rewrite minus_IZR in H2. lra.
Qed.

(** X5.  The total weight one call of [advect_streamline] returns is either
    0 (together with a weighted sum of 0) or at least 1 and at most
    [streamlength]; so the total weight the driver divides by is never a
    small positive number. *)
Theorem total_weight_is_zero_or_at_least_one
    (vfield : vgrid) (sfield_in : grid)
    (row col streamlength : Z) (periodic : bool) (fs ft bs bt : R) :
  advect_streamline vfield sfield_in row col 1 streamlength periodic
    = Ok (fs, ft) ->
  advect_streamline vfield sfield_in row col (-1) streamlength periodic
    = Ok (bs, bt) ->
  (ft = 0 /\ fs = 0 \/ 1 <= ft <= IZR streamlength)
  /\ (bt = 0 /\ bs = 0 \/ 1 <= bt <= IZR streamlength)
  /\ (ft + bt > 0 -> 1 <= ft + bt <= 2 * IZR streamlength).
Proof.
  intros Hf Hb.
  apply advect_streamline_first_step in Hf, Hb.
  assert (Hf' : ft = 0 /\ fs = 0 \/ 1 <= ft <= IZR streamlength)
    by (destruct Hf as [(_ & -> & ->)|(_ & _ & H)]; auto).
  assert (Hb' : bt = 0 /\ bs = 0 \/ 1 <= bt <= IZR streamlength)
    by (destruct Hb as [(_ & -> & ->)|(_ & _ & H)]; auto).
  split; [exact Hf'|]. split; [exact Hb'|]. intros Hpos.
  destruct Hf' as [[-> _]|Hf'], Hb' as [[-> _]|Hb']; lra.
Qed.

Lemma ZceilZ (z : Z) : Zceil (IZR z) = z.
Proof. apply Zceil_eq. lra. Qed.

Lemma left_step_time (row col : Z) :
  xmin (delta_time_col (IZR col) (IZR (-1) * 1))
       (delta_time_row (IZR row) (IZR (-1) * 0)) = Finite 1.
Proof.
  unfold delta_time_col, delta_time_row.
  rewrite (decide_False (P := IZR (-1) * 1 > 0)) by lra.
  rewrite (decide_True (P := IZR (-1) * 1 < 0)) by lra.
  rewrite (decide_False (P := IZR (-1) * 0 > 0)) by lra.
  rewrite (decide_False (P := IZR (-1) * 0 < 0)) by lra.
  simpl. rewrite ZceilZ. f_equal. field.
Qed.

Example advect_left_periodic :
  advect_streamline vfield_right sfield_cols 1 0 (-1) 2 true = Ok (0.5, 1.5).
Proof.
  unfold advect_streamline.
  change (range 2) with [0; 1]%Z.
  unfold for_loop, init_state.
  rewrite (periodic_step_eval vfield_right sfield_cols (-1) 2 0
             (mkState 1 0 0 0) 1 0 1 1 1 0).
  2-4: rewrite cell_of_integer; reflexivity.
  2: intros [_ H]; lra.
  2: apply (left_step_time 1 0).
  2: { change (shape1 vfield_right) with 2%Z.
       apply (pymod_eval _ _ 1); simpl; [discriminate|lra|lra]. }
  2: { change (shape2 vfield_right) with 2%Z.
       apply (pymod_eval _ _ 0); simpl; [discriminate|lra|lra]. }
  rewrite (periodic_step_eval vfield_right sfield_cols (-1) 2 1
             (mkState 1 1 _ _) 1 0 1 1 0 1).
  2-4: rewrite cell_of_integer; reflexivity.
  2: intros [_ H]; lra.
  2: apply (left_step_time 1 1).
  2: { change (shape1 vfield_right) with 2%Z.
       apply (pymod_eval _ _ 1); simpl; [discriminate|lra|lra]. }
  2: { change (shape2 vfield_right) with 2%Z.
       apply (pymod_eval _ _ 1); simpl; [discriminate|lra|lra]. }
  simpl. rewrite taper_2_0, taper_2_1. do 2 f_equal; lra.
Qed.

Lemma total_weight_is_zero_or_at_least_one_witness :
  advect_streamline vfield_right sfield_cols 1 0 1 2 true = Ok (0.5, 1.5)
  /\ advect_streamline vfield_right sfield_cols 1 0 (-1) 2 true
     = Ok (0.5, 1.5)
  /\ 1 <= 1.5 + 1.5 <= 2 * IZR 2.
Proof.
  split; [exact advect_right_periodic|].
  split; [exact advect_left_periodic|].
  destruct (total_weight_is_zero_or_at_least_one vfield_right sfield_cols
              1 0 2 true 0.5 1.5 0.5 1.5 advect_right_periodic
              advect_left_periodic) as (_ & _ & H).
  apply H. lra.
Defined.

(** ** When the zero fallback is taken *)







(** ** Reversing the vector field *)

Lemma getitem_fmap {A B : Type} (f : A -> B) (l : list A) (i : Z) :
  getitem (f <$> l) i = res_map f (getitem l i).
Proof.
  unfold getitem. rewrite length_fmap.
  destruct (resolve (length l) i) as [k|e]; [simpl|reflexivity].
  rewrite list_lookup_fmap. destruct (l !! k); reflexivity.
Qed.

Lemma getitem3_map_field (f : R -> R) (v : vgrid) (k r c : Z) :
  getitem3 (map_field f v) k r c = res_map f (getitem3 v k r c).
Proof.
  unfold getitem3, getitem2, map_field. rewrite getitem_fmap.
  destruct (getitem v k) as [comp|e]; [simpl|reflexivity].
  rewrite getitem_fmap.
  destruct (getitem comp r) as [row|e]; [simpl|reflexivity].
  apply getitem_fmap.
Qed.

Lemma shape1_map_field (f : R -> R) (v : vgrid) :
  shape1 (map_field f v) = shape1 v.
Proof.
  unfold shape1, map_field. rewrite list_lookup_fmap.
  destruct (v !! 0%nat); simpl; [rewrite length_fmap|]; reflexivity.
Qed.

Lemma shape2_map_field (f : R -> R) (v : vgrid) :
  shape2 (map_field f v) = shape2 v.
Proof.
  unfold shape2, map_field. rewrite list_lookup_fmap.
  destruct (v !! 0%nat) as [comp|]; simpl; [|reflexivity].
  rewrite list_lookup_fmap.
  destruct (comp !! 0%nat); simpl; [rewrite length_fmap|]; reflexivity.
Qed.

Lemma vshape_map_field (f : R -> R) (v : vgrid) (nr nc : Z) :
  vshape v nr nc -> vshape (map_field f v) nr nc.
Proof.
  intros [Hlen Hall]. unfold map_field.
  split; [rewrite length_fmap; exact Hlen|].
  apply Forall_fmap. eapply Forall_impl; [exact Hall|].
  intros comp [Hc Hrows]. split; [rewrite length_fmap; exact Hc|].
  apply Forall_fmap. eapply Forall_impl; [exact Hrows|].
  intros row Hrow. simpl. rewrite length_fmap. exact Hrow.
Qed.

Lemma finish_step_map_field (f : R -> R) (v : vgrid) (sfield_in : grid)
    (streamlength : Z) (periodic : bool) (step row_int col_int : Z)
    (row' col' : R) (s : state) :
  finish_step (map_field f v) sfield_in streamlength periodic step
    row_int col_int row' col' s
  = finish_step v sfield_in streamlength periodic step row_int col_int
      row' col' s.
Proof.
  unfold finish_step. rewrite shape1_map_field, shape2_map_field.
  reflexivity.
Qed.

Lemma loop_body_negate_field (v : vgrid) (sfield_in : grid)
    (dir_sgn streamlength : Z) (periodic : bool) (step : Z) (s : state) :
  loop_body (negate_field v) sfield_in dir_sgn streamlength periodic step s
  = loop_body v sfield_in (- dir_sgn) streamlength periodic step s.
Proof.
  unfold loop_body, negate_field. rewrite !getitem3_map_field.
  destruct (getitem3 v 0 _ _) as [v0|e]; [simpl|reflexivity].
  destruct (getitem3 v 1 _ _) as [v1|e]; [simpl|reflexivity].
  replace (IZR dir_sgn * - v0) with (IZR (- dir_sgn) * v0)
    by (rewrite opp_IZR; ring).
  replace (IZR dir_sgn * - v1) with (IZR (- dir_sgn) * v1)
    by (rewrite opp_IZR; ring).
  destruct (bool_decide _); [reflexivity|].
  destruct (advance _ _ _ _) as [[row' col']|e]; [simpl|reflexivity].
  apply finish_step_map_field.
Qed.

Lemma for_loop_ext (body1 body2 : Z -> state -> res ctl) (steps : list Z)
    (s : state) :
  (forall step s, body1 step s = body2 step s) ->
  for_loop body1 steps s = for_loop body2 steps s.
Proof.
  intros Hext. revert s. induction steps as [|step rest IH]; intros s; simpl.
  - reflexivity.
  - rewrite Hext. destruct (body2 step s) as [[s'|]|e]; auto.
Qed.

Lemma advect_streamline_negate_field (v : vgrid) (sfield_in : grid)
    (row col dir_sgn streamlength : Z) (periodic : bool) :
  advect_streamline (negate_field v) sfield_in row col dir_sgn streamlength
    periodic
  = advect_streamline v sfield_in row col (- dir_sgn) streamlength periodic.
Proof.
  unfold advect_streamline. f_equal. apply for_loop_ext.
  intros step s. apply loop_body_negate_field.
Qed.

Lemma run_tasks_ext {T : Type} (task1 task2 : T -> grid -> res grid)
    (ts : list T) (out : grid) :
  (forall t o, t ∈ ts -> task1 t o = task2 t o) ->
  run_tasks task1 ts out = run_tasks task2 ts out.
Proof.
  revert out. induction ts as [|t ts IH]; intros out Hext; simpl.
  - reflexivity.
  - rewrite Hext by left. destruct (task2 t out) as [o|e]; simpl; auto.
    apply IH. intros t' o' Hin. apply Hext. right. exact Hin.
Qed.

(** X9.  Reversing the vector field swaps the two tracing directions:
    a call on [-vfield] with [dir_sgn] is the call on [vfield] with
    [-dir_sgn].  So on well-shaped inputs the image of [-vfield] is the
    image of [vfield]. *)
Theorem image_ignores_field_orientation
    (vfield : vgrid) (sfield_in sfield_out : grid) (streamlength nr nc : Z)
    (periodic : bool) :
  vshape vfield nr nc -> gshape sfield_in nr nc -> gshape sfield_out nr nc ->
  (forall row col dir_sgn,
     advect_streamline (negate_field vfield) sfield_in row col dir_sgn
       streamlength periodic
     = advect_streamline vfield sfield_in row col (- dir_sgn) streamlength
         periodic)
  /\ _compute_lic (negate_field vfield) sfield_in sfield_out streamlength
       nr nc periodic
     = _compute_lic vfield sfield_in sfield_out streamlength nr nc periodic.
Proof.
  intros Hv Hs Hout.
  split; [intros; apply advect_streamline_negate_field|].
  rewrite !compute_lic_as_schedule. unfold run_schedule.
  apply run_tasks_ext. intros [row col] o Hin.
  apply elem_of_pixels in Hin as [Hr Hc].
  rewrite !pixel_task_value. f_equal.
  destruct (pixel_value_ok vfield sfield_in streamlength periodic nr nc Hv Hs
              row col Hr Hc) as (fs & ft & bs & bt & Hf & Hb & ->).
  unfold pixel_value. rewrite !advect_streamline_negate_field.
  change (- (1))%Z with (-1)%Z. change (- (-1))%Z with 1%Z.
  rewrite Hf, Hb. simpl.
  rewrite (Rplus_comm bt ft), (Rplus_comm bs fs). reflexivity.
Qed.

Lemma image_ignores_field_orientation_witness :
  vshape vfield_right 2 2 /\ gshape sfield_cols 2 2
  /\ gshape (np_zeros 2 2) 2 2
  /\ _compute_lic (negate_field vfield_right) sfield_cols (np_zeros 2 2) 2
       2 2 false
     = _compute_lic vfield_right sfield_cols (np_zeros 2 2) 2 2 2 false.
Proof.
  assert (Hz : gshape (np_zeros 2 2) 2 2) by (apply np_zeros_shape; lia).
  split; [exact vfield_right_shape|]. split; [exact sfield_cols_shape|].
  split; [exact Hz|].
  apply (image_ignores_field_orientation vfield_right sfield_cols
           (np_zeros 2 2) 2 2 2 false vfield_right_shape sfield_cols_shape Hz).
Defined.

(** ** No cell is skipped *)







(** * Properties in binary64 arithmetic *)

Import PrimFloat.
#[local] Open Scope float_scope.

(** ** The arithmetic on some numbers *)

(** [np.floor], [np.ceil] and [int(np.floor(x))] at 1.5, -1.5, -0.5 and
    -0.25. *)
Example floor_and_ceil_values :
  F64.np_floor 0x1.8p+0 = 1 /\ F64.np_floor (-0x1.8p+0) = -2
  /\ F64.np_ceil 0x1.8p+0 = 2 /\ F64.np_ceil (-0x1p-1) = -0
  /\ F64.int_floor (-0x1p-2) = Ok (-1)%Z
  /\ F64.int_floor nan = Err NonFinite
  /\ F64.int_floor infinity = Err NonFinite.
Proof. repeat split; vm_compute; reflexivity. Qed.

(** Python's [%]: [(0.9999999999999999 + 2) % 2] is 1.0,
    [(1/3 + 2) % 2] is 0.3333333333333335, [-5.5 % 2] is 0.5, [7.5 % -2] is
    -0.5, and [nan % 2] is [nan]. *)
Example pymod_values :
  F64.pymod (0x1.fffffffffffffp-1 + 2) 2 = Ok 1
  /\ F64.pymod (1 / 3 + 2) 2 = Ok 0x1.5555555555558p-2
  /\ F64.pymod (-0x1.6p+2) 2 = Ok 0x1p-1
  /\ F64.pymod 0x1.ep+2 (-2) = Ok (-0x1p-1)
  /\ F64.pymod nan 2 = Ok nan
  /\ F64.pymod 1 0 = Err ZeroDivisionError.
Proof. repeat split; vm_compute; reflexivity. Qed.

(** Storing in a [float32] array: 0.1 becomes 0.10000000149011612, 1.5 stays,
    [2^128] becomes [inf] and [2^-150] becomes 0. *)
Example to_float32_values :
  F64.to_float32 0x1.999999999999ap-4 = 0x1.99999ap-4
  /\ F64.to_float32 0x1.8p+0 = 0x1.8p+0
  /\ F64.to_float32 0x1p+128 = infinity
  /\ F64.to_float32 0x1p-150 = 0.
Proof. repeat split; vm_compute; reflexivity. Qed.

(** ** Rounding in a run *)

(** The rightward field with the stream length 2 under periodic boundaries:
    on a scalar field that holds the binary64 number nearest to 0.1 in every
    cell, each direction returns the sum 0.15000000000000002 and the weight
    1.5, and the pixel is 0.10000000000000002. *)
Example constant_field_is_not_reproduced :
  F64.advect_streamline F64.cos_table F64.vfield_right F64.sfield_tenth
    0 0 1 2 true = Ok (0x1.3333333333334p-3, 0x1.8p+0)
  /\ F64.pixel_value F64.cos_table F64.vfield_right F64.sfield_tenth 2 true
       0 0 = Ok 0x1.999999999999bp-4
  /\ (0x1.999999999999ap-4 <? 0x1.999999999999bp-4) = true.
Proof. repeat split; vm_compute; reflexivity. Qed.

(** The field that moves along the diagonal in row 0 and rests in row 1,
    seeded at (0, 0) with the stream length 4: under open boundaries the
    first step stops at 0.9999999999999999, short of the boundary, and the
    call collects the weight 1.8535533905932737; under periodic boundaries
    the wrap rounds the position to 1.0, the next cell rests, and the call
    collects the weight 1. *)
Example open_can_collect_more_than_periodic :
  F64.advect_streamline F64.cos_table F64.vfield_top F64.sfield_ones
    0 0 1 4 false = Ok (0x1.da827999fcef3p+0, 0x1.da827999fcef3p+0)
  /\ F64.advect_streamline F64.cos_table F64.vfield_top F64.sfield_ones
       0 0 1 4 true = Ok (1, 1).
Proof. split; vm_compute; reflexivity. Qed.

(** The weights of the six steps of a full streamline add up to
    3.5000000000000004. *)
Example full_streamline_weight :
  F64.advect_streamline F64.cos_table F64.vfield_right F64.sfield_ones
    0 0 1 6 true = Ok (0x1.c000000000001p+1, 0x1.c000000000001p+1).
Proof. vm_compute. reflexivity. Qed.

(** ** Arrays *)

Lemma float_getitem2_elem (g : F64.grid) (r c : Z) (x : float) :
  F64.getitem2 g r c = Ok x -> F64.cell_value g x.
Proof.
  unfold F64.getitem2. intros H. apply res_bind_Ok in H as (row & Hrow & H).
  exists row. split; eapply getitem_elem; eauto.
Qed.


(** ** One iteration *)


(** ** The loop *)




(** ** The cell-crossing step *)




(** The same step for every cosine that is 1 at 0, as [np.cos] is. *)
Lemma short_step_for_every_cosine (np_cos : float -> float) :
  np_cos 0 = 1 ->
  F64.loop_body np_cos F64.vfield_diagonal F64.sfield_cols 1 2 false
    0 (F64.init_state 0 0)
  = Ok (F64.Next (F64.mkState 0x1.fffffffffffffp-1 0x1.fffffffffffffp-1 0 1)).
Proof.
  intros H. vm_compute. rewrite H. vm_compute. reflexivity.
Qed.

(** ** Velocities too small for the crossing time *)

(** C6, at a failing input.  With the row velocity 0 and the column velocity
    the subnormal number nearest to 1e-320 the velocity is not stalled, the
    time of the row axis is [inf] and the quotient [1 / velocity] of the
    column axis overflows to [inf] as well, so that the smaller of the two is
    not finite; the new column is [inf] and the new row is [0 * inf], which
    is [nan]. *)
Theorem one_zero_component_can_leave_no_finite_time :
  F64.stalled 0 F64.tiny = false
  /\ F64.delta_time_row 0 0 = infinity
  /\ F64.delta_time_col 0 F64.tiny = infinity
  /\ F64.advance 0 0 0 F64.tiny = (nan, infinity).
Proof. repeat split; vm_compute; reflexivity. Qed.

(** C3, at a failing input.  On a field whose component 1 is zero everywhere
    and whose component 0 is the subnormal number nearest to 1e-320, the
    first periodic step from the seed (0, 0) continues with the row
    coordinate [nan]: the row has changed. *)
Theorem zero_row_component_can_change_the_row (np_cos : float -> float) :
  F64.row_float (F64.init_state 0 0) = 0
  /\ match F64.loop_body np_cos F64.vfield_tiny F64.sfield_cols 1 2 true 0
             (F64.init_state 0 0) with
     | Ok (F64.Next s') => F64.row_float s' = nan
     | _ => False
     end.
Proof. split; vm_compute; reflexivity. Qed.

(** C4, at a failing input.  On the same field under periodic boundaries the
    position after the first step from the seed (0, 0) is ([nan], [nan]),
    which is not inside the grid, and the second iteration has no cell to
    sample: [int(np.floor(nan))] is no index, and the call does not
    return. *)
Theorem periodic_streamline_can_leave_the_grid (np_cos : float -> float) :
  match F64.loop_body np_cos F64.vfield_tiny F64.sfield_cols 1 2 true 0
          (F64.init_state 0 0) with
  | Ok (F64.Next s') =>
      F64.inside 2 2 (F64.row_float s') (F64.col_float s') = false
      /\ F64.int_floor (F64.row_float s') = Err NonFinite
  | _ => False
  end
  /\ F64.advect_streamline np_cos F64.vfield_tiny F64.sfield_cols 0 0 1 2
       true = Err NonFinite.
Proof. repeat split; vm_compute; reflexivity. Qed.

(** ** Output values *)




(** The same pixel for every cosine that is 1 at 0, as [np.cos] is. *)
Lemma overflow_for_every_cosine (np_cos : float -> float) :
  np_cos 0 = 1 ->
  F64.pixel_value np_cos F64.vfield_right F64.sfield_huge 1 true 0 0
  = Ok infinity.
Proof.
  intros H. vm_compute. rewrite H. vm_compute. reflexivity.
Qed.

(** * Further properties in binary64 arithmetic *)

Import SpecFloat FloatOps FloatAxioms.

(** ** Comparisons of binary64 numbers *)

Lemma Prim2SF_zero : Prim2SF 0 = S754_zero false.
Proof. reflexivity. Qed.

Lemma Prim2SF_infinity : Prim2SF infinity = S754_infinity false.
Proof. reflexivity. Qed.

(** A number whose absolute value equals 0.0 is neither above nor below
    0.0. *)
Lemma float_zero_not_compared (v : float) :
  (abs v =? 0) = true -> (0 <? v) = false /\ (v <? 0) = false.
Proof.
  rewrite eqb_spec, abs_spec, !ltb_spec, Prim2SF_zero.
  destruct (Prim2SF v) as [s|s| |s m e]; simpl; try discriminate; auto.
Qed.

(** Nothing is above [inf]. *)
Lemma float_not_above_infinity (a : float) : (infinity <? a) = false.
Proof.
  rewrite ltb_spec, Prim2SF_infinity.
  destruct (Prim2SF a) as [s|[]| |s m e]; reflexivity.
Qed.

(** A number that is not below [inf] is [inf] or [nan]. *)
Lemma float_not_below_infinity (a : float) :
  (a <? infinity) = false -> a = infinity \/ is_nan a = true.
Proof.
  unfold is_nan. rewrite ltb_spec, eqb_spec, Prim2SF_infinity. intros H.
  destruct (Prim2SF a) as [s|[]| |[] m e] eqn:Ha; simpl in *;
    try discriminate; auto.
  left. rewrite <- (SF2Prim_Prim2SF a), Ha. reflexivity.
Qed.

(** ** Zero velocity components *)

(** X16.  In binary64 arithmetic a velocity component whose absolute value
    equals 0.0 has the crossing time [inf] and leaves the step time to the
    other axis: with a zero row velocity both coordinates move by the
    velocity times the crossing time of the column axis, and with a zero
    column velocity by the velocity times the crossing time of the row axis
    (when that time is a number). *)
Theorem zero_component_leaves_the_time_to_the_other_axis
    (row col vel_row vel_col : float) :
  ((abs vel_row =? 0) = true ->
   F64.delta_time_row row vel_row = infinity
   /\ F64.advance row col vel_row vel_col
      = (row + vel_row * F64.delta_time_col col vel_col,
         col + vel_col * F64.delta_time_col col vel_col))
  /\ ((abs vel_col =? 0) = true ->
      is_nan (F64.delta_time_row row vel_row) = false ->
      F64.delta_time_col col vel_col = infinity
      /\ F64.advance row col vel_row vel_col
         = (row + vel_row * F64.delta_time_row row vel_row,
            col + vel_col * F64.delta_time_row row vel_row)).
Proof.
  split.
  - intros Hzero. destruct (float_zero_not_compared _ Hzero) as [Hpos Hneg].
    assert (Hrow : F64.delta_time_row row vel_row = infinity).
    { unfold F64.delta_time_row. rewrite Hpos, Hneg. reflexivity. }
    split; [exact Hrow|]. unfold F64.advance, F64.py_min.
    rewrite Hrow, float_not_above_infinity. reflexivity.
  - intros Hzero Hnum.
    destruct (float_zero_not_compared _ Hzero) as [Hpos Hneg].
    assert (Hcol : F64.delta_time_col col vel_col = infinity).
    { unfold F64.delta_time_col. rewrite Hpos, Hneg. reflexivity. }
    split; [exact Hcol|]. unfold F64.advance, F64.py_min. rewrite Hcol.
    destruct (F64.delta_time_row row vel_row <? infinity) eqn:Hlt;
      [reflexivity|].
    destruct (float_not_below_infinity _ Hlt) as [->|Hnan];
      [reflexivity|congruence].
Qed.

(** A zero row velocity and the column velocity 1 at the position (0, 0):
    the step time is that of the column axis, 1, and the column moves to
    1. *)
Lemma zero_component_leaves_the_time_to_the_other_axis_witness :
  (abs 0 =? 0) = true
  /\ F64.delta_time_row 0 0 = infinity
  /\ F64.advance 0 0 0 1 = (0 + 0 * F64.delta_time_col 0 1,
                            0 + 1 * F64.delta_time_col 0 1)
  /\ F64.advance 0 0 0 1 = (0, 1).
Proof.
  assert (Hzero : (abs 0 =? 0) = true) by reflexivity.
  split; [exact Hzero|].
  destruct (zero_component_leaves_the_time_to_the_other_axis 0 0 0 1)
    as [H _].
  destruct (H Hzero) as [Hrow Hadv].
  split; [exact Hrow|]. split; [exact Hadv|]. reflexivity.
Defined.

(** ** Stalled streamlines *)

Lemma float_for_loop_break (body : Z -> F64.state -> res F64.ctl)
    (steps : list Z) (s : F64.state) (step : Z) (s' : F64.state) :
  (step, s') ∈ F64.entered body steps s -> body step s' = Ok F64.Break ->
  F64.for_loop body steps s = Ok s'.
Proof.
  revert s. induction steps as [|st rest IH]; intros s Hin Hbrk; simpl in *.
  - apply elem_of_nil in Hin. contradiction.
  - apply elem_of_cons in Hin as [[= -> ->]|Hin].
    + rewrite Hbrk. reflexivity.
    + destruct (body st s) as [[s1|]|f];
        [auto|apply elem_of_nil in Hin; contradiction..].
Qed.

(** X17.  In binary64 arithmetic: an iteration that reads two velocity
    components of absolute value 0.0 leaves the loop at once, and the call
    returns the sums as they were when the iteration was entered, without a
    contribution of this iteration. *)
Theorem stalled_iteration_returns_the_sums
    (np_cos : float -> float) (vfield : F64.vgrid) (sfield_in : F64.grid)
    (start_row start_col dir_sgn streamlength : Z) (periodic : bool)
    (step : Z) (s : F64.state) (row_int col_int : Z) (v0 v1 : float) :
  (step, s) ∈ F64.advect_entered np_cos vfield sfield_in start_row start_col
                dir_sgn streamlength periodic ->
  F64.int_floor (F64.row_float s) = Ok row_int ->
  F64.int_floor (F64.col_float s) = Ok col_int ->
  F64.getitem3 vfield 0 row_int col_int = Ok v0 ->
  F64.getitem3 vfield 1 row_int col_int = Ok v1 ->
  (abs (F64.of_int dir_sgn * v1) =? 0) && (abs (F64.of_int dir_sgn * v0) =? 0)
    = true ->
  F64.loop_body np_cos vfield sfield_in dir_sgn streamlength periodic step s
    = Ok F64.Break
  /\ F64.advect_streamline np_cos vfield sfield_in start_row start_col dir_sgn
       streamlength periodic
     = Ok (F64.weighted_sum s, F64.total_weight s).
Proof.
  intros Hin Hrow Hcol Hv0 Hv1 Hstall.
  assert (Hbrk : F64.loop_body np_cos vfield sfield_in dir_sgn streamlength
                   periodic step s = Ok F64.Break).
  { unfold F64.loop_body. rewrite Hrow, Hcol. simpl. rewrite Hv0, Hv1. simpl.
    unfold F64.stalled. rewrite Hstall. reflexivity. }
  split; [exact Hbrk|]. unfold F64.advect_streamline.
  rewrite (float_for_loop_break _ _ _ _ _ Hin Hbrk). reflexivity.
Qed.

(** A field whose cell (0, 1) holds the zero velocity: the second iteration
    from the seed (0, 0) stalls, and the call returns the sums of the first,
    0.1 and 1. *)
Lemma stalled_iteration_returns_the_sums_witness :
  (1%Z, F64.mkState 0 1 0x1.999999999999ap-4 1)
    ∈ F64.advect_entered F64.cos_at_zero F64.vfield_stop F64.sfield_tenth
        0 0 1 2 true
  /\ F64.advect_streamline F64.cos_at_zero F64.vfield_stop F64.sfield_tenth
       0 0 1 2 true
     = Ok (0x1.999999999999ap-4, 1).
Proof.
  assert (Hin : (1%Z, F64.mkState 0 1 0x1.999999999999ap-4 1)
                  ∈ F64.advect_entered F64.cos_at_zero F64.vfield_stop
                      F64.sfield_tenth 0 0 1 2 true).
  { vm_compute. right. left. }
  split; [exact Hin|].
  apply (stalled_iteration_returns_the_sums F64.cos_at_zero F64.vfield_stop
           F64.sfield_tenth 0 0 1 2 true 1
           (F64.mkState 0 1 0x1.999999999999ap-4 1) 0 1 0 0 Hin);
    vm_compute; reflexivity.
Defined.

(** ** Values of finite binary64 numbers *)

Lemma digits2_pos_bounds (m : positive) :
  (2 ^ (Z.pos (digits2_pos m) - 1) <= Z.pos m < 2 ^ Z.pos (digits2_pos m))%Z.
Proof.
  induction m as [p IH|p IH|]; simpl digits2_pos.
  - rewrite Pos2Z.inj_succ, Z.pow_succ_r by lia.
    replace (Z.succ (Z.pos (digits2_pos p)) - 1)%Z
      with (Z.succ (Z.pos (digits2_pos p) - 1)) by lia.
    rewrite Z.pow_succ_r by lia. lia.
  - rewrite Pos2Z.inj_succ, Z.pow_succ_r by lia.
    replace (Z.succ (Z.pos (digits2_pos p)) - 1)%Z
      with (Z.succ (Z.pos (digits2_pos p) - 1)) by lia.
    rewrite Z.pow_succ_r by lia. lia.
  - simpl. lia.
Qed.

(** The mantissa and the exponent of a binary64 number: the exponent is at
    least -1074, the mantissa is below [2^53], and above the least exponent
    it is at least [2^52]. *)
Lemma valid_finite (x : float) (s : bool) (m : positive) (e : Z) :
  Prim2SF x = S754_finite s m e ->
  (-1074 <= e)%Z /\ (Z.pos m < 2 ^ 53)%Z
  /\ ((-1074 < e)%Z -> (2 ^ 52 <= Z.pos m)%Z).
Proof.
  intros Hx. pose proof (Prim2SF_valid x) as Hvalid. rewrite Hx in Hvalid.
  unfold valid_binary, bounded, canonical_mantissa, fexp, SpecFloat.emin
    in Hvalid.
  apply andb_prop in Hvalid as [Hcanon _]. apply Z.eqb_eq in Hcanon.
  change prec with 53%Z in Hcanon. change emax with 1024%Z in Hcanon.
  pose proof (digits2_pos_bounds m) as [Hlo Hhi].
  assert (Hd : (Z.pos (digits2_pos m) <= 53)%Z) by lia.
  split; [lia|]. split.
  - eapply Z.lt_le_trans; [exact Hhi|]. apply Z.pow_le_mono_r; lia.
  - intros He. assert (Hd' : Z.pos (digits2_pos m) = 53%Z) by lia.
    rewrite Hd' in Hlo. exact Hlo.
Qed.

(** A finite non-negative number below a number of integer value [n] has
    its floor below [n]. *)
Lemma floor_below_integer (x y : float) (m : positive) (e n : Z) :
  Prim2SF x = S754_finite false m e -> (x <? y) = true ->
  F64.represents y n ->
  (0 <= F64.floor_of_finite false m e < n)%Z.
Proof.
  intros Hx Hlt Hy. rewrite ltb_spec, Hx in Hlt.
  destruct (valid_finite x false m e Hx) as (Hemin & Hm & Hnormal).
  unfold F64.represents in Hy. unfold F64.floor_of_finite.
  assert (Hfloor : (0 <= if (0 <=? e)%Z then Z.pos m * 2 ^ e
                         else Z.pos m / 2 ^ (- e))%Z).
  { destruct (0 <=? e)%Z eqn:He.
    - apply Z.leb_le in He. apply Z.mul_nonneg_nonneg; [lia|].
      apply Z.pow_nonneg. lia.
    - apply Z.leb_gt in He. apply Z.div_pos; [lia|].
      apply Z.pow_pos_nonneg; lia. }
  split; [exact Hfloor|].
  destruct (Prim2SF y) as [sy|sy| |sy my ey] eqn:HPy;
    try contradiction; try discriminate Hlt.
  destruct sy; [discriminate Hlt|].
  destruct (valid_finite y false my ey HPy) as (Heymin & Hmy & Hynormal).
  unfold SFltb, SFcompare in Hlt.
  destruct (Z.compare_spec e ey) as [Heq|Hless|Hmore];
    [|clear Hlt|discriminate Hlt].
  - (* equal exponents: the mantissas decide *)
    subst ey.
    assert (Hmant : (Z.pos m < Z.pos my)%Z).
    { change (Pos.compare_cont Eq m my) with (m ?= my)%positive in Hlt.
      destruct (m ?= my)%positive eqn:Hc; try discriminate Hlt.
      apply Pos.compare_lt_iff in Hc. apply Pos2Z.pos_lt_pos. exact Hc. }
    cbv zeta in Hy. destruct (0 <=? e)%Z eqn:He.
    + apply Z.leb_le in He. rewrite <- Hy.
      apply Z.mul_lt_mono_pos_r; [apply Z.pow_pos_nonneg; lia|exact Hmant].
    + apply Z.leb_gt in He.
      assert (Hp : (0 < 2 ^ (- e))%Z) by (apply Z.pow_pos_nonneg; lia).
      apply Z.div_lt_upper_bound; [exact Hp|]. rewrite Hy in Hmant. lia.
  - (* a smaller exponent *)
    assert (H52 : (2 ^ 52 <= Z.pos my)%Z) by (apply Hynormal; lia).
    cbv zeta in Hy.
    destruct (0 <=? e)%Z eqn:He, (0 <=? ey)%Z eqn:Hey;
      try apply Z.leb_le in He; try apply Z.leb_le in Hey;
      try apply Z.leb_gt in He; try apply Z.leb_gt in Hey; try lia.
    + rewrite <- Hy.
      assert (Hpow : (2 * 2 ^ e <= 2 ^ ey)%Z).
      { rewrite <- Z.pow_succ_r by lia. apply Z.pow_le_mono_r; lia. }
      assert (Hpe : (0 < 2 ^ e)%Z) by (apply Z.pow_pos_nonneg; lia).
      nia.
    + rewrite <- Hy.
      assert (Hpe : (2 <= 2 ^ (- e))%Z).
      { change 2%Z with (2 ^ 1)%Z at 1. apply Z.pow_le_mono_r; lia. }
      assert (Hpey : (1 <= 2 ^ ey)%Z).
      { change 1%Z with (2 ^ 0)%Z at 1. apply Z.pow_le_mono_r; lia. }
      assert (Hq : (Z.pos m / 2 ^ (- e) <= Z.pos m / 2)%Z).
      { apply Z.div_le_compat_l; lia. }
      assert (Hh : (Z.pos m / 2 < 2 ^ 52)%Z).
      { apply Z.div_lt_upper_bound; [lia|].
        change (2 * 2 ^ 52)%Z with (2 ^ 53)%Z. exact Hm. }
      nia.
    + assert (Hp : (0 < 2 ^ (- e))%Z) by (apply Z.pow_pos_nonneg; lia).
      apply Z.div_lt_upper_bound; [exact Hp|].
      assert (Hsplit : (2 ^ (- e) = 2 ^ (- ey) * 2 ^ (ey - e))%Z).
      { rewrite <- Z.pow_add_r by lia. f_equal. lia. }
      assert (Hpd : (2 <= 2 ^ (ey - e))%Z).
      { change 2%Z with (2 ^ 1)%Z at 1. apply Z.pow_le_mono_r; lia. }
      assert (Hpey : (0 < 2 ^ (- ey))%Z) by (apply Z.pow_pos_nonneg; lia).
      rewrite Hsplit.
      assert (Hn : (Z.pos my * 2 ^ (ey - e)
                    = n * (2 ^ (- ey) * 2 ^ (ey - e)))%Z)
        by (rewrite Hy; ring).
      change (2 ^ 53)%Z with (2 * 2 ^ 52)%Z in Hm. nia.
Qed.

(** A number that passes [0 <= x < n] has a floor, an index of an axis of
    length [n]. *)
Lemma float_in_range_floor (x : float) (n : Z) :
  (0 <=? x) = true -> (x <? F64.of_int n) = true ->
  F64.represents (F64.of_int n) n ->
  exists k, F64.int_floor x = Ok k /\ (0 <= k < n)%Z.
Proof.
  intros Hle Hlt Hn. unfold F64.int_floor.
  pose proof Hlt as Hlt'. rewrite ltb_spec in Hlt'.
  rewrite leb_spec, Prim2SF_zero in Hle.
  destruct (Prim2SF x) as [s|s| |s m e] eqn:Hx.
  - exists 0%Z. split; [reflexivity|]. split; [lia|].
    unfold F64.represents in Hn.
    destruct (Prim2SF (F64.of_int n)) as [sy|sy| |sy my ey];
      try contradiction; try discriminate Hlt'.
    destruct sy; [discriminate Hlt'|]. cbv zeta in Hn.
    destruct (0 <=? ey)%Z eqn:Hey.
    + apply Z.leb_le in Hey. rewrite <- Hn.
      apply Z.mul_pos_pos; [lia|apply Z.pow_pos_nonneg; lia].
    + apply Z.leb_gt in Hey.
      assert (Hp : (0 < 2 ^ (- ey))%Z) by (apply Z.pow_pos_nonneg; lia).
      nia.
  - destruct s; [discriminate Hle|].
    destruct (Prim2SF (F64.of_int n)) as [sy|[]| |[] my ey];
      discriminate Hlt'.
  - discriminate Hle.
  - destruct s; [discriminate Hle|]. eexists. split; [reflexivity|].
    eapply floor_below_integer; eauto.
Qed.

(** ** Open boundaries in binary64 arithmetic *)

Lemma float_inside_cell (nr nc : Z) (s : F64.state) :
  F64.represents (F64.of_int nr) nr -> F64.represents (F64.of_int nc) nc ->
  F64.inside nr nc (F64.row_float s) (F64.col_float s) = true ->
  F64.cell_in_bounds nr nc s.
Proof.
  intros Hnr Hnc Hin. unfold F64.inside in Hin.
  apply andb_prop in Hin as [Hrow Hcol].
  apply andb_prop in Hrow as [Hr0 Hr1]. apply andb_prop in Hcol as [Hc0 Hc1].
  destruct (float_in_range_floor _ _ Hr0 Hr1 Hnr) as (r & Hr & Hrange).
  destruct (float_in_range_floor _ _ Hc0 Hc1 Hnc) as (c & Hc & Hcrange).
  exists r, c. auto.
Qed.

Lemma float_gshape_row (g : F64.grid) (nr nc : Z) (row : list float) :
  F64.gshape g nr nc -> row ∈ g -> Z.of_nat (length row) = nc.
Proof.
  intros [_ Hrows] Hin. rewrite Forall_forall in Hrows. auto.
Qed.

Lemma float_getitem2_in_range (g : F64.grid) (nr nc r c : Z) :
  F64.gshape g nr nc -> (0 <= r < nr)%Z -> (0 <= c < nc)%Z ->
  exists x, F64.getitem2 g r c = Ok x.
Proof.
  intros Hg Hr Hc. unfold F64.getitem2.
  destruct (getitem_in_range g r) as (row & Hrow & ->); [destruct Hg; lia|].
  simpl. apply list_elem_of_lookup_2 in Hrow.
  pose proof (float_gshape_row _ _ _ _ Hg Hrow) as Hlen.
  destruct (getitem_in_range row c) as (x & _ & ->); [lia|]. eauto.
Qed.

Lemma float_getitem3_in_range (v : F64.vgrid) (nr nc k r c : Z) :
  F64.vshape v nr nc -> (0 <= k < 2)%Z -> (0 <= r < nr)%Z ->
  (0 <= c < nc)%Z ->
  exists x, F64.getitem3 v k r c = Ok x.
Proof.
  intros [Hlen Hall] Hk Hr Hc. unfold F64.getitem3.
  destruct (getitem_in_range v k) as (comp & Hcomp & ->); [lia|]. simpl.
  rewrite Forall_forall in Hall.
  eapply float_getitem2_in_range; eauto.
  apply Hall. eapply list_elem_of_lookup_2; eauto.
Qed.

Lemma float_vshape_shape1 (v : F64.vgrid) (nr nc : Z) :
  F64.vshape v nr nc -> F64.shape1 v = nr.
Proof.
  intros [Hlen Hall]. unfold F64.shape1.
  destruct v as [|comp v]; [discriminate|]. simpl.
  apply Forall_cons in Hall as [[Hnr _] _]. exact Hnr.
Qed.

Lemma float_vshape_shape2 (v : F64.vgrid) (nr nc : Z) :
  F64.vshape v nr nc -> (0 < nr)%Z -> F64.shape2 v = nc.
Proof.
  intros [Hlen Hall] Hpos. unfold F64.shape2.
  destruct v as [|comp v]; [discriminate|]. simpl.
  apply Forall_cons in Hall as [[Hnr Hrows] _].
  destruct comp as [|row comp]; [simpl in Hnr; lia|]. simpl.
  apply Forall_cons in Hrows as [Hrow _]. exact Hrow.
Qed.

(** Under open boundaries, an iteration entered at a position inside the
    grid raises no fault, and when it continues the new position is inside
    the grid. *)
Lemma float_open_body_keeps_inside (np_cos : float -> float)
    (vfield : F64.vgrid) (sfield_in : F64.grid) (dir_sgn streamlength : Z)
    (nr nc : Z) (step : Z) (s : F64.state) :
  F64.vshape vfield nr nc -> F64.gshape sfield_in nr nc -> (0 < nr)%Z ->
  F64.represents (F64.of_int nr) nr -> F64.represents (F64.of_int nc) nc ->
  F64.inside nr nc (F64.row_float s) (F64.col_float s) = true ->
  match F64.loop_body np_cos vfield sfield_in dir_sgn streamlength false
          step s with
  | Ok (F64.Next s') =>
      F64.inside nr nc (F64.row_float s') (F64.col_float s') = true
  | Ok F64.Break => True
  | Err _ => False
  end.
Proof.
  intros Hv Hs Hpos Hnr Hnc Hin.
  destruct (float_inside_cell nr nc s Hnr Hnc Hin)
    as (r & c & Hr & Hc & Hrange & Hcrange).
  destruct (float_getitem3_in_range vfield nr nc 0 r c Hv ltac:(lia)
              Hrange Hcrange) as (v0 & Hv0).
  destruct (float_getitem3_in_range vfield nr nc 1 r c Hv ltac:(lia)
              Hrange Hcrange) as (v1 & Hv1).
  destruct (float_getitem2_in_range sfield_in nr nc r c Hs Hrange Hcrange)
    as (sample & Hsample).
  unfold F64.loop_body. rewrite Hr, Hc. cbn [res_bind].
  rewrite Hv0, Hv1. cbn [res_bind].
  destruct (F64.stalled _ _); [exact I|].
  destruct (F64.advance _ _ _ _) as [row' col'].
  unfold F64.finish_step.
  rewrite (float_vshape_shape1 _ _ _ Hv), (float_vshape_shape2 _ _ _ Hv Hpos).
  destruct (F64.inside nr nc row' col') eqn:Hin'; [|exact I].
  unfold F64.accumulate. rewrite Hsample. cbn [res_bind F64.row_float
    F64.col_float]. exact Hin'.
Qed.

Lemma float_open_loop_is_safe (np_cos : float -> float)
    (vfield : F64.vgrid) (sfield_in : F64.grid) (dir_sgn streamlength : Z)
    (nr nc : Z) (steps : list Z) (s : F64.state) :
  F64.vshape vfield nr nc -> F64.gshape sfield_in nr nc -> (0 < nr)%Z ->
  F64.represents (F64.of_int nr) nr -> F64.represents (F64.of_int nc) nc ->
  F64.inside nr nc (F64.row_float s) (F64.col_float s) = true ->
  let body := F64.loop_body np_cos vfield sfield_in dir_sgn streamlength
                false in
  (exists s', F64.for_loop body steps s = Ok s')
  /\ Forall (fun e => F64.inside nr nc (F64.row_float e.2)
                        (F64.col_float e.2) = true)
       (F64.entered body steps s).
Proof.
  intros Hv Hs Hpos Hnr Hnc Hin body. revert s Hin.
  induction steps as [|step rest IH]; intros s Hin; simpl.
  - split; [eauto|constructor].
  - pose proof (float_open_body_keeps_inside np_cos vfield sfield_in dir_sgn
                  streamlength nr nc step s Hv Hs Hpos Hnr Hnc Hin) as Hb.
    fold body in Hb.
    destruct (body step s) as [[s1|]|f]; [|split; [eauto|]|contradiction].
    + destruct (IH s1 Hb) as [Hrun Hall].
      split; [exact Hrun|]. constructor; assumption.
    + constructor; [exact Hin|constructor].
Qed.

(** X18.  In binary64 arithmetic, under open boundaries, on arrays of the
    shapes (2, R, C) and (R, C) whose [R] and [C] are binary64 numbers: a
    call whose seed passes the test [0 <= row < R and 0 <= col < C] returns
    without a fault, and every iteration it enters is at a position that
    passes the test and samples a cell with [0 <= row_int < R] and
    [0 <= col_int < C].  No position is [nan] or infinite, whatever the
    velocities are. *)
Theorem open_streamline_is_safe_in_binary64
    (np_cos : float -> float) (vfield : F64.vgrid) (sfield_in : F64.grid)
    (nr nc start_row start_col dir_sgn streamlength : Z) :
  F64.vshape vfield nr nc -> F64.gshape sfield_in nr nc -> (0 < nr)%Z ->
  F64.represents (F64.of_int nr) nr -> F64.represents (F64.of_int nc) nc ->
  F64.inside nr nc (F64.of_int start_row) (F64.of_int start_col) = true ->
  (exists ws tw,
     F64.advect_streamline np_cos vfield sfield_in start_row start_col
       dir_sgn streamlength false = Ok (ws, tw))
  /\ forall step s,
       (step, s) ∈ F64.advect_entered np_cos vfield sfield_in start_row
                     start_col dir_sgn streamlength false ->
       F64.inside nr nc (F64.row_float s) (F64.col_float s) = true
       /\ F64.cell_in_bounds nr nc s.
Proof.
  intros Hv Hs Hpos Hnr Hnc Hseed.
  destruct (float_open_loop_is_safe np_cos vfield sfield_in dir_sgn
              streamlength nr nc (range streamlength)
              (F64.init_state start_row start_col) Hv Hs Hpos Hnr Hnc Hseed)
    as [[s' Hrun] Hall].
  split.
  - unfold F64.advect_streamline. rewrite Hrun. simpl. eauto.
  - intros step s Hin. rewrite Forall_forall in Hall.
    specialize (Hall _ Hin). simpl in Hall.
    split; [exact Hall|]. apply float_inside_cell; assumption.
Qed.

(** The diagonal field with the velocity 1.9: the call seeded at (0, 0)
    returns, and its first iteration samples the cell (0, 0). *)
Lemma open_streamline_is_safe_in_binary64_witness :
  F64.vshape F64.vfield_diagonal 2 2 /\ F64.gshape F64.sfield_cols 2 2
  /\ F64.represents (F64.of_int 2) 2
  /\ F64.inside 2 2 (F64.of_int 0) (F64.of_int 0) = true
  /\ (exists ws tw,
        F64.advect_streamline F64.cos_at_zero F64.vfield_diagonal
          F64.sfield_cols 0 0 1 2 false = Ok (ws, tw))
  /\ F64.cell_in_bounds 2 2 (F64.init_state 0 0).
Proof.
  assert (Hv : F64.vshape F64.vfield_diagonal 2 2).
  { split; [reflexivity|]. repeat constructor. }
  assert (Hs : F64.gshape F64.sfield_cols 2 2) by repeat constructor.
  assert (Hn : F64.represents (F64.of_int 2) 2) by (vm_compute; reflexivity).
  assert (Hseed : F64.inside 2 2 (F64.of_int 0) (F64.of_int 0) = true)
    by (vm_compute; reflexivity).
  destruct (open_streamline_is_safe_in_binary64 F64.cos_at_zero
              F64.vfield_diagonal F64.sfield_cols 2 2 0 0 1 2 Hv Hs
              ltac:(lia) Hn Hn Hseed) as [Hrun Hcells].
  split; [exact Hv|]. split; [exact Hs|]. split; [exact Hn|].
  split; [exact Hseed|]. split; [exact Hrun|].
  apply (Hcells 0%Z). unfold F64.advect_entered, range. simpl. left.
Defined.

(** ** The row coordinate on a field without row velocity *)

Lemma float_is_nan (x : float) : is_nan x = true -> Prim2SF x = S754_nan.
Proof.
  unfold is_nan. rewrite eqb_spec.
  destruct (Prim2SF x) as [s|[]| |[] m e]; simpl; try discriminate; auto;
    unfold SFeqb, SFcompare; rewrite Z.compare_refl, Pos.compare_cont_refl;
    discriminate.
Qed.

Lemma float_nan_is_nan (x : float) : Prim2SF x = S754_nan -> is_nan x = true.
Proof. unfold is_nan. rewrite eqb_spec. intros ->. reflexivity. Qed.

Lemma Prim2SF_inj (x y : float) : Prim2SF x = Prim2SF y -> x = y.
Proof.
  intros H. rewrite <- (SF2Prim_Prim2SF x), <- (SF2Prim_Prim2SF y), H.
  reflexivity.
Qed.

(** Two numbers that compare equal are the same number, or both are zeros. *)
Lemma float_eqb_cases (x y : float) :
  (x =? y) = true ->
  x = y \/ exists s s', Prim2SF x = S754_zero s /\ Prim2SF y = S754_zero s'.
Proof.
  rewrite eqb_spec. intros H.
  destruct (Prim2SF x) as [s|s| |s m e] eqn:Hx,
           (Prim2SF y) as [s'|s'| |s' m' e'] eqn:Hy;
    try (right; eauto; fail); left; apply Prim2SF_inj; rewrite Hx, Hy;
    unfold SFeqb, SFcompare in H; try discriminate H;
    destruct s, s'; try discriminate H; try reflexivity.
  all: destruct (Z.compare_spec e e') as [->| |]; try discriminate H.
  all: change (Pos.compare_cont Eq m m') with (m ?= m')%positive in H.
  all: destruct (Pos.compare_spec m m') as [->| |]; try discriminate H.
  all: reflexivity.
Qed.

(** A velocity that is zero, scaled by the direction sign and multiplied by
    a time, is a zero or [nan]. *)
Lemma float_zero_velocity_displacement (dir_sgn : Z) (v t : float) :
  dir_sgn = 1%Z \/ dir_sgn = (-1)%Z -> (abs v =? 0) = true ->
  (exists s, Prim2SF (F64.of_int dir_sgn * v * t) = S754_zero s)
  \/ Prim2SF (F64.of_int dir_sgn * v * t) = S754_nan.
Proof.
  intros Hdir Hzero. rewrite eqb_spec, abs_spec, Prim2SF_zero in Hzero.
  rewrite !mul_spec.
  assert (Hd : exists s m e,
            Prim2SF (F64.of_int dir_sgn) = S754_finite s m e).
  { destruct Hdir as [->| ->]; vm_compute; eauto. }
  destruct Hd as (sd & md & ed & ->).
  destruct (Prim2SF v) as [sv|sv| |sv mv ev]; try discriminate Hzero.
  destruct (Prim2SF t) as [st|st| |st mt et]; simpl; eauto.
Qed.

Lemma float_add_zero (x z r0 : float) (s : bool) :
  Prim2SF z = S754_zero s -> (x =? r0) = true -> (x + z =? r0) = true.
Proof.
  intros Hz. rewrite !eqb_spec, add_spec, Hz. unfold SF64add, SFadd.
  destruct (Prim2SF x) as [[]|[]| |sx mx ex],
           (Prim2SF r0) as [sr|sr| |sr mr er], s;
    intros H; try discriminate H; try reflexivity; exact H.
Qed.

Lemma float_add_nan (x z : float) :
  Prim2SF z = S754_nan -> Prim2SF (x + z) = S754_nan.
Proof.
  intros Hz. rewrite add_spec, Hz.
  destruct (Prim2SF x) as [sx|sx| |sx mx ex]; reflexivity.
Qed.

Lemma float_nan_add (x y : float) :
  Prim2SF x = S754_nan -> Prim2SF (x + y) = S754_nan.
Proof. intros Hx. rewrite add_spec, Hx. reflexivity. Qed.

(** Adding a finite number to two numbers that compare equal gives the same
    number. *)
Lemma float_add_eqb (x r0 y : float) (s : bool) (m : positive) (e : Z) :
  Prim2SF y = S754_finite s m e -> (x =? r0) = true -> x + y = r0 + y.
Proof.
  intros Hy Heq. destruct (float_eqb_cases _ _ Heq)
    as [->|(sx & sr & Hx & Hr)]; [reflexivity|].
  apply Prim2SF_inj. rewrite !add_spec, Hx, Hr, Hy. reflexivity.
Qed.

(** The wrap of [nan] is [nan]. *)
Lemma float_pymod_nan (x : float) (n : Z) (w : float) :
  Prim2SF x = S754_nan -> F64.pymod x n = Ok w -> is_nan w = true.
Proof.
  intros Hx. unfold F64.pymod. destruct (decide (n = 0%Z)); [discriminate|].
  assert (Hm : F64.fmod x (F64.of_int n) = nan).
  { unfold F64.fmod. rewrite Hx. reflexivity. }
  rewrite Hm. change (nan =? 0) with false. change (nan <? 0) with false.
  intros [= <-]. destruct (F64.of_int n <? 0); simpl.
  - apply float_nan_is_nan. apply float_nan_add. reflexivity.
  - reflexivity.
Qed.

Lemma float_leb_not_nan (x : float) :
  (0 <=? x) = true -> Prim2SF x <> S754_nan.
Proof.
  rewrite leb_spec, Prim2SF_zero. intros H Hx. rewrite Hx in H.
  discriminate H.
Qed.

Lemma float_represents_finite (x : float) (n : Z) :
  F64.represents x n -> (0 < n)%Z ->
  exists s m e, Prim2SF x = S754_finite s m e.
Proof.
  unfold F64.represents. intros H Hn.
  destruct (Prim2SF x) as [s|s| |s m e]; [lia|contradiction..|eauto].
Qed.

Lemma float_represents_eqb (x : float) (n : Z) :
  F64.represents x n -> (x =? x) = true.
Proof.
  unfold F64.represents. rewrite eqb_spec. intros H.
  destruct (Prim2SF x) as [s|s| |s m e]; try contradiction; try reflexivity.
  unfold SFeqb, SFcompare.
  rewrite Z.compare_refl, Pos.compare_cont_refl. destruct s; reflexivity.
Qed.

(** An iteration entered at a [nan] row has no cell to sample. *)
Lemma float_loop_body_nan (np_cos : float -> float) (vfield : F64.vgrid)
    (sfield_in : F64.grid) (dir_sgn streamlength : Z) (periodic : bool)
    (step : Z) (s : F64.state) :
  is_nan (F64.row_float s) = true ->
  F64.loop_body np_cos vfield sfield_in dir_sgn streamlength periodic step s
  = Err NonFinite.
Proof.
  intros Hnan. apply float_is_nan in Hnan.
  unfold F64.loop_body, F64.int_floor. rewrite Hnan. reflexivity.
Qed.

(** On a field without row velocity, an iteration that continues from a row
    equal to [r0] continues at a row equal to [r0]; under periodic
    boundaries the row can also become [nan]. *)
Lemma float_step_keeps_row (np_cos : float -> float) (vfield : F64.vgrid)
    (sfield_in : F64.grid) (dir_sgn streamlength : Z) (periodic : bool)
    (step : Z) (s s' : F64.state) (r0 : float) :
  (forall r c v, F64.getitem3 vfield 1 r c = Ok v -> (abs v =? 0) = true) ->
  dir_sgn = 1%Z \/ dir_sgn = (-1)%Z ->
  (periodic = true ->
   F64.represents (F64.of_int (F64.shape1 vfield)) (F64.shape1 vfield)
   /\ (0 < F64.shape1 vfield)%Z
   /\ exists w,
        F64.pymod (r0 + F64.of_int (F64.shape1 vfield)) (F64.shape1 vfield)
          = Ok w
        /\ (w =? r0) = true) ->
  (F64.row_float s =? r0) = true ->
  F64.loop_body np_cos vfield sfield_in dir_sgn streamlength periodic step s
    = Ok (F64.Next s') ->
  (F64.row_float s' =? r0) = true
  \/ (periodic = true /\ is_nan (F64.row_float s') = true).
Proof.
  intros Hcomp1 Hdir Hwrap Hrow Hbody. unfold F64.loop_body in Hbody.
  apply res_bind_Ok in Hbody as (row_int & _ & Hbody).
  apply res_bind_Ok in Hbody as (col_int & _ & Hbody).
  apply res_bind_Ok in Hbody as (v0 & _ & Hbody).
  apply res_bind_Ok in Hbody as (v1 & Hv1 & Hbody).
  destruct (F64.stalled _ _); [discriminate|].
  unfold F64.advance in Hbody.
  set (t := F64.py_min _ _) in Hbody.
  set (col' := (F64.col_float s + _)%float) in Hbody.
  pose proof (float_zero_velocity_displacement dir_sgn v1 t Hdir
                (Hcomp1 _ _ _ Hv1)) as Hz.
  assert (Hacc : forall r c,
            F64.accumulate np_cos sfield_in streamlength step row_int col_int
              r c s = Ok (F64.Next s') -> F64.row_float s' = r).
  { intros r c Ha. unfold F64.accumulate in Ha.
    apply res_bind_Ok in Ha as (sample & _ & Ha). injection Ha as <-.
    reflexivity. }
  unfold F64.finish_step in Hbody. destruct periodic.
  - apply res_bind_Ok in Hbody as (rw & Hrw & Hbody).
    apply res_bind_Ok in Hbody as (cw & _ & Hbody).
    rewrite (Hacc _ _ Hbody).
    destruct (Hwrap eq_refl) as (Hrep & Hpos & w & Hw & Hweq).
    destruct (float_represents_finite _ _ Hrep Hpos) as (sn & mn & en & Hn).
    destruct Hz as [[sz Hz]|Hz].
    + left. pose proof (float_add_zero _ _ _ _ Hz Hrow) as Hrow'.
      rewrite (float_add_eqb _ _ _ _ _ _ Hn Hrow') in Hrw.
      rewrite Hw in Hrw. injection Hrw as <-. exact Hweq.
    + right. split; [reflexivity|].
      eapply float_pymod_nan; [|exact Hrw].
      apply float_nan_add. apply float_add_nan. exact Hz.
  - destruct (F64.inside _ _ _ _) eqn:Hin; [|discriminate].
    rewrite (Hacc _ _ Hbody). left.
    destruct Hz as [[sz Hz]|Hz]; [eapply float_add_zero; eauto|].
    exfalso. unfold F64.inside in Hin.
    apply andb_prop in Hin as [Hin _]. apply andb_prop in Hin as [Hin _].
    apply float_leb_not_nan in Hin. apply Hin.
    apply float_add_nan. exact Hz.
Qed.

(** X19.  In binary64 arithmetic, on a vector field whose component 1 is
    zero in every cell, with [dir_sgn] 1 or -1: at every iteration a call
    enters, the row coordinate equals the seed row; except that under
    periodic boundaries it can be [nan] instead, and the iteration entered
    with it ends the call in a fault. *)
Theorem row_is_the_seed_row_or_nan
    (np_cos : float -> float) (vfield : F64.vgrid) (sfield_in : F64.grid)
    (start_row start_col dir_sgn streamlength : Z) (periodic : bool) :
  (forall r c v, F64.getitem3 vfield 1 r c = Ok v -> (abs v =? 0) = true) ->
  dir_sgn = 1%Z \/ dir_sgn = (-1)%Z ->
  F64.represents (F64.of_int start_row) start_row ->
  (periodic = true ->
   F64.represents (F64.of_int (F64.shape1 vfield)) (F64.shape1 vfield)
   /\ (0 < F64.shape1 vfield)%Z
   /\ exists w,
        F64.pymod (F64.of_int start_row + F64.of_int (F64.shape1 vfield))
          (F64.shape1 vfield) = Ok w
        /\ (w =? F64.of_int start_row) = true) ->
  forall step s,
    (step, s) ∈ F64.advect_entered np_cos vfield sfield_in start_row
                  start_col dir_sgn streamlength periodic ->
    (F64.row_float s =? F64.of_int start_row) = true
    \/ (periodic = true
        /\ is_nan (F64.row_float s) = true
        /\ F64.loop_body np_cos vfield sfield_in dir_sgn streamlength
             periodic step s = Err NonFinite).
Proof.
  intros Hcomp1 Hdir Hseed Hwrap. unfold F64.advect_entered.
  assert (Hinit : (F64.row_float (F64.init_state start_row start_col)
                   =? F64.of_int start_row) = true).
  { simpl. eapply float_represents_eqb; eauto. }
  revert Hinit. generalize (F64.init_state start_row start_col).
  induction (range streamlength) as [|st rest IH]; intros s0 Hs0 step s Hin;
    simpl in Hin.
  - apply elem_of_nil in Hin. contradiction.
  - apply elem_of_cons in Hin as [[= -> ->]|Hin]; [left; exact Hs0|].
    destruct (F64.loop_body np_cos vfield sfield_in dir_sgn streamlength
                periodic st s0) as [[s1|]|f] eqn:Hbody;
      try (apply elem_of_nil in Hin; contradiction).
    destruct (float_step_keeps_row np_cos vfield sfield_in dir_sgn
                streamlength periodic st s0 s1 (F64.of_int start_row)
                Hcomp1 Hdir Hwrap Hs0 Hbody) as [Hs1|[Hper Hnan]].
    + eapply IH; eauto.
    + pose proof (float_loop_body_nan np_cos vfield sfield_in dir_sgn
                    streamlength periodic) as Hfault.
      destruct rest as [|st' rest']; simpl in Hin.
      * apply elem_of_nil in Hin. contradiction.
      * rewrite (Hfault st' s1 Hnan) in Hin.
        apply elem_of_cons in Hin as [[= -> ->]|Hin].
        -- right. auto.
        -- apply elem_of_nil in Hin. contradiction.
Qed.

Lemma vfield_right_has_no_row_velocity (r c : Z) (v : float) :
  F64.getitem3 F64.vfield_right 1 r c = Ok v -> (abs v =? 0) = true.
Proof.
  unfold F64.getitem3. intros H. apply res_bind_Ok in H as (comp & Hcomp & H).
  vm_compute in Hcomp. injection Hcomp as <-.
  apply float_getitem2_elem in H as (row & Hrow & Hv).
  repeat (apply elem_of_cons in Hrow as [->|Hrow]);
    try (apply elem_of_nil in Hrow; contradiction);
    repeat (apply elem_of_cons in Hv as [->|Hv]);
    try reflexivity; apply elem_of_nil in Hv; contradiction.
Qed.

(** The rightward field under periodic boundaries, seeded at (1, 0): the
    second iteration is entered at the row 1. *)
Lemma row_is_the_seed_row_or_nan_witness :
  F64.represents (F64.of_int 1) 1
  /\ F64.pymod (F64.of_int 1 + F64.of_int 2) 2 = Ok 1
  /\ (1%Z, F64.mkState 1 1 0 1)
       ∈ F64.advect_entered F64.cos_at_zero F64.vfield_right F64.sfield_cols
           1 0 1 2 true
  /\ ((F64.row_float (F64.mkState 1 1 0 1) =? F64.of_int 1) = true
      \/ (true = true
          /\ is_nan (F64.row_float (F64.mkState 1 1 0 1)) = true
          /\ F64.loop_body F64.cos_at_zero F64.vfield_right F64.sfield_cols
               1 2 true 1 (F64.mkState 1 1 0 1) = Err NonFinite)).
Proof.
  assert (Hseed : F64.represents (F64.of_int 1) 1)
    by (vm_compute; reflexivity).
  assert (Hwrap : F64.pymod (F64.of_int 1 + F64.of_int 2) 2 = Ok 1)
    by (vm_compute; reflexivity).
  assert (Hin : (1%Z, F64.mkState 1 1 0 1)
                  ∈ F64.advect_entered F64.cos_at_zero F64.vfield_right
                      F64.sfield_cols 1 0 1 2 true).
  { vm_compute. right. left. }
  split; [exact Hseed|]. split; [exact Hwrap|]. split; [exact Hin|].
  apply (row_is_the_seed_row_or_nan F64.cos_at_zero F64.vfield_right
           F64.sfield_cols 1 0 1 2 true vfield_right_has_no_row_velocity
           ltac:(left; reflexivity) Hseed); [|exact Hin].
  intros _. split; [vm_compute; reflexivity|]. split; [reflexivity|].
  exists 1. split; [exact Hwrap|reflexivity].
Defined.
